(** * mesh2sdf.compute: mesh -> signed distance field, with optional repair

    Shallow embedding of [src/mesh2sdf/compute.py].  The function [compute]
    sequences calls into four external libraries (the [mesh2sdf.core]
    extension, numpy, scikit-image and trimesh).  The opaque numerical
    primitives are gathered in the class [Primitives]; everything the
    orchestrator itself decides (shell selection, renormalisation, the shape
    of the returned value, the order of the calls) is defined here.

    Scalars are IEEE binary64 values, as in the numpy arrays the code
    manipulates, and are modelled by Rocq's primitive floats.  Console
    output ([print]) has no effect on the returned value and is left out. *)

From Stdlib Require Import ZArith List Bool String Lia Floats Permutation.
Import ListNotations.

Set Warnings "-inexact-float".

(** ** Data model *)

(** A row of an [(n, 3)] float array: one vertex position. *)
Definition point : Type := float * float * float.

(** A row of an [(n, 3)] integer array: one triangle. *)
Definition face : Type := Z * Z * Z.

(** The dense field returned by [mesh2sdf.core.compute]: shape and values
    in C order.  (The extension stores 32-bit floats; each is a binary64
    value, and [np.abs] is exact on them.) *)
Record ndarray : Type := { shape : list Z; data : list float }.

(** A [trimesh.Trimesh] object, as far as the code reads and writes it. *)
Record Trimesh : Type := { vertices : list point; faces : list face }.

(** A [(2, 3)] bounds array: the min corner and the max corner. *)
Definition box : Type := point * point.

(** Python exceptions, by class name and message (the class is what the
    statements below rely on; the wording of messages varies with the
    library version). *)
Inductive exception : Type := Exception (cls msg : string).

Definition exc_class (e : exception) : string :=
  match e with Exception cls _ => cls end.

Inductive result (A : Type) : Type :=
| Ok (a : A)
| Raise (e : exception).
Arguments Ok {A} a.
Arguments Raise {A} e.

(** What [compute] hands back: [sdf], or the tuple [(sdf, mesh)]. *)
Inductive retval : Type :=
| Sdf (sdf : ndarray)
| SdfMesh (sdf : ndarray) (mesh : Trimesh).

Definition retval_sdf (r : retval) : ndarray :=
  match r with Sdf s | SdfMesh s _ => s end.

(** ** The external primitives *)

(** Calls that leave [compute.py], in the order they are made. *)
Inductive Call : Type :=
| call_core_compute (v : list point) (f : list face) (size : Z)
| call_marching_cubes (sdf : ndarray) (level : float)
| call_Trimesh (v : list point) (f : list face)
| call_split (mesh : Trimesh)
| call_concatenate (components : list Trimesh).

(** [bounds] and [!=] are read off the mesh objects.  The components of one
    split differ in content, so on them comparing objects and comparing
    contents agree, and [!=] is taken as a function of the two meshes. *)
Class Primitives : Type := {
  (** [mesh2sdf.core.compute(vertices, faces, size)] *)
  core_compute : list point -> list face -> Z -> result ndarray;
  (** [skimage.measure.marching_cubes(sdf, level)], first two outputs *)
  marching_cubes : ndarray -> float -> result (list point * list face);
  (** [trimesh.Trimesh(vertices, faces)] *)
  Trimesh_init : list point -> list face -> result Trimesh;
  (** [mesh.split(only_watertight=False)] *)
  split : Trimesh -> result (list Trimesh);
  (** the [bounds] property of a component *)
  bounds : Trimesh -> box;
  (** [c_other != c] on two mesh objects *)
  mesh_ne : Trimesh -> Trimesh -> bool;
  (** [trimesh.util.concatenate(components)]; a version that answers an
      empty list with something that is not a mesh fails at the next
      attribute access, which counts here as a failure of this call *)
  concatenate : list Trimesh -> result Trimesh
}.

(** ** A small monad: exceptions plus the trace of external calls *)

Definition M (A : Type) : Type := (result A * list Call)%type.

Definition ret {A} (a : A) : M A := (Ok a, []).

Definition bind {A B} (m : M A) (k : A -> M B) : M B :=
  match m with
  | (Ok a, tr) => let '(r, tr') := k a in (r, tr ++ tr')
  | (Raise e, tr) => (Raise e, tr)
  end.

(** A pure step that may raise. *)
Definition lift {A} (r : result A) : M A := (r, []).

(** A call to an external primitive: logged, with its outcome. *)
Definition extern {A} (c : Call) (r : result A) : M A := (r, [c]).

(** The outcome of a run and the calls it made, in order. *)
Definition outcome {A} (m : M A) : result A := fst m.
Definition trace {A} (m : M A) : list Call := snd m.

Declare Scope py_scope.
Delimit Scope py_scope with py.
Notation "x <- m ;; k" := (bind m (fun x => k))
  (at level 100, m at next level, right associativity) : py_scope.
Notation "' p <- m ;; k" := (bind m (fun p => k))
  (at level 100, p pattern, m at next level, right associativity) : py_scope.

Definition rbind {A B} (r : result A) (k : A -> result B) : result B :=
  match r with Ok a => k a | Raise e => Raise e end.

(** ** numpy and trimesh helpers used by the orchestrator *)

Local Open Scope float_scope.

(** [np.abs(sdf)] *)
Definition np_abs (a : ndarray) : ndarray :=
  {| shape := shape a; data := map abs (data a) |}.

(** The scalar loops behind [ndarray.min] and [ndarray.max]: a NaN wins. *)
Definition np_minimum (a b : float) : float :=
  if is_nan a then a else if a <? b then a else b.

Definition np_maximum (a b : float) : float :=
  if is_nan a then a else if b <? a then a else b.

Definition pointwise (f : float -> float -> float) (p q : point) : point :=
  let '(px, py, pz) := p in
  let '(qx, qy, qz) := q in
  (f px qx, f py qy, f pz qz).

Definition zero_size (op : string) : exception :=
  Exception "ValueError"
    ("zero-size array to reduction operation " ++ op ++ " which has no identity").

(** [a.min(0)] and [a.max(0)] on an [(n, 3)] array. *)
Definition min0 (a : list point) : result point :=
  match a with
  | [] => Raise (zero_size "minimum")
  | p :: rest => Ok (fold_left (pointwise np_minimum) rest p)
  end.

Definition max0 (a : list point) : result point :=
  match a with
  | [] => Raise (zero_size "maximum")
  | p :: rest => Ok (fold_left (pointwise np_maximum) rest p)
  end.

(** [v.max()] on a length-3 vector. *)
Definition max3 (p : point) : float :=
  let '(x, y, z) := p in np_maximum (np_maximum x y) z.

(** [np.argmax] on a list of floats: the first maximum, or the first NaN. *)
Fixpoint argmax_loop (mp : float) (max_ind i : nat) (ip : list float) : nat :=
  match ip with
  | [] => max_ind
  | x :: rest =>
      if negb (x <=? mp) then
        if is_nan x then i else argmax_loop x i (S i) rest
      else argmax_loop mp max_ind (S i) rest
  end.

Definition np_argmax (a : list float) : result nat :=
  match a with
  | [] => Raise (Exception "ValueError"
                   "attempt to get argmax of an empty sequence")
  | mp :: rest => Ok (if is_nan mp then 0%nat else argmax_loop mp 0 1 rest)
  end.

(** [components[i]] *)
Definition getitem {A} (l : list A) (i : nat) : result A :=
  match nth_error l i with
  | Some a => Ok a
  | None => Raise (Exception "IndexError" "list index out of range")
  end.

(** [float(n)] for a Python int: round to nearest even, overflow raises. *)
Definition float_of_int (n : Z) : result float :=
  let d := SF2Prim (binary_normalize prec emax n 0 false) in
  if is_infinity d then
    Raise (Exception "OverflowError" "int too large to convert to float")
  else Ok d.

(** [a / n] with [a] a Python float and [n] a Python int. *)
Definition float_truediv_int (a : float) (n : Z) : result float :=
  rbind (float_of_int n) (fun d =>
    if d =? 0 then Raise (Exception "ZeroDivisionError" "float division by zero")
    else Ok (a / d)).

(** [(p > q).all()] and [(p < q).all()] on two rows. *)
Definition row_gt (p q : point) : bool :=
  let '(px, py, pz) := p in
  let '(qx, qy, qz) := q in
  (qx <? px) && (qy <? py) && (qz <? pz).

Definition row_lt (p q : point) : bool :=
  let '(px, py, pz) := p in
  let '(qx, qy, qz) := q in
  (px <? qx) && (py <? qy) && (pz <? qz).

(** [trimesh.bounds.contains(bounds, points)]: one flag per point, true when
    the point lies strictly between the two corners on every axis. *)
Definition bounds_contains (b : box) (points : list point) : list bool :=
  map (fun p => row_gt p (fst b) && row_lt p (snd b)) points.

(** A bounds array read as two points. *)
Definition rows (b : box) : list point := [fst b; snd b].

(** Python's [all]. *)
Definition all (flags : list bool) : bool := forallb (fun b => b) flags.

(** [mesh.vertices = v] *)
Definition set_vertices (mesh : Trimesh) (v : list point) : Trimesh :=
  {| vertices := v; faces := faces mesh |}.

(** ** The orchestrator *)

Section Pipeline.

Context {P : Primitives}.

Local Open Scope py_scope.

(** Lines 44-53, inner loop: is component [c] free of any other component
    whose bounds contain both corners of [c.bounds]? *)
Definition keep_flag_of (components : list Trimesh) (c : Trimesh) : bool :=
  let bounds_c := bounds c in
  fold_left
    (fun keep_flag c_other =>
       if mesh_ne c_other c then
         let inside_flag := bounds_contains (bounds c_other) (rows bounds_c) in
         if all inside_flag then false else keep_flag
       else keep_flag)
    components true.

(** Lines 41-53, outer loop: one flag appended per component. *)
Definition keep_flags_of (components : list Trimesh) : list bool :=
  fold_left
    (fun keep_flags c => keep_flags ++ [keep_flag_of components c])
    components [].

(** Line 58: [[comp for comp, keep in zip(components, keep_flags) if keep]] *)
Definition kept (components : list Trimesh) (keep_flags : list bool)
  : list Trimesh :=
  map fst (filter snd (combine components keep_flags)).

(** Lines 64-66, loop body: [(bbmax - bbmin).max()] of one component. *)
Definition extent (c : Trimesh) : result float :=
  rbind (min0 (vertices c)) (fun bbmin =>
  rbind (max0 (vertices c)) (fun bbmax =>
  Ok (max3 (pointwise PrimFloat.sub bbmax bbmin)))).

(** Lines 62-66: the list [bbox]. *)
Fixpoint bbox_loop (bbox : list float) (components : list Trimesh)
  : result (list float) :=
  match components with
  | [] => Ok bbox
  | c :: rest => rbind (extent c) (fun e => bbox_loop (bbox ++ [e]) rest)
  end.

Definition bbox_of (components : list Trimesh) : result (list float) :=
  bbox_loop [] components.

(** Lines 40-68: from the split components to the mesh that is repaired. *)
Definition select_shell (new_fix : bool) (components : list Trimesh)
  : M Trimesh :=
  if new_fix then
    let keep_flags := keep_flags_of components in
    let components := kept components keep_flags in
    extern (call_concatenate components) (concatenate components)
  else
    bbox <- lift (bbox_of components) ;;
    max_component <- lift (np_argmax bbox) ;;
    lift (getitem components max_component).

(** Line 69, one coordinate: [v * (2.0 / (size - 1)) - 1.0]. *)
Definition renorm_coord (scale : float) (v : float) : float :=
  (v * scale - 1)%float.

Definition renorm_point (scale : float) (p : point) : point :=
  let '(x, y, z) := p in
  (renorm_coord scale x, renorm_coord scale y, renorm_coord scale z).

(** Line 69: the whole vertex array is rescaled and stored back. *)
Definition renormalize (mesh : Trimesh) (size : Z) : result Trimesh :=
  rbind (float_truediv_int 2 (size - 1)) (fun scale =>
  Ok (set_vertices mesh (map (renorm_point scale) (vertices mesh)))).

(** Lines 31-73: the repair branch, entered with the first-pass field. *)
Definition repair (sdf : ndarray) (size : Z) (level : float)
    (return_mesh new_fix : bool) : M retval :=
  let sdf := np_abs sdf in
  '(iso_vertices, iso_faces) <-
     extern (call_marching_cubes sdf level) (marching_cubes sdf level) ;;
  mesh <- extern (call_Trimesh iso_vertices iso_faces)
                 (Trimesh_init iso_vertices iso_faces) ;;
  components <- extern (call_split mesh) (split mesh) ;;
  mesh <- select_shell new_fix components ;;
  mesh <- lift (renormalize mesh size) ;;
  sdf <- extern (call_core_compute (vertices mesh) (faces mesh) size)
                (core_compute (vertices mesh) (faces mesh) size) ;;
  ret (if return_mesh then SdfMesh sdf mesh else Sdf sdf).

(** [compute(vertices, faces, size, fix, level, return_mesh, new_fix)]
    ([fix] is a keyword of Rocq, hence [fix_]). *)
Definition compute (vertices : list point) (faces : list face) (size : Z)
    (fix_ : bool) (level : float) (return_mesh new_fix : bool) : M retval :=
  sdf <- extern (call_core_compute vertices faces size)
                (core_compute vertices faces size) ;;
  if negb fix_ then
    if return_mesh then
      mesh <- extern (call_Trimesh vertices faces)
                     (Trimesh_init vertices faces) ;;
      ret (SdfMesh sdf mesh)
    else ret (Sdf sdf)
  else repair sdf size level return_mesh new_fix.

End Pipeline.

(** ** Calling [compute]: parameters, defaults, keywords *)

Module Signature.

(** Argument values of the annotated kinds. *)
Inductive value : Type :=
| VPoints (v : list point)
| VFaces (f : list face)
| VInt (n : Z)
| VBool (b : bool)
| VFloat (x : float).

(** A formal parameter: its name and its default, if it has one. *)
Definition param : Type := string * option value.

(** Lines 9-10: the [def] line. *)
Definition compute_params : list param :=
  [ ("vertices", None);
    ("faces", None);
    ("size", Some (VInt 128));
    ("fix", Some (VBool false));
    ("level", Some (VFloat 0.015));
    ("return_mesh", Some (VBool false));
    ("new_fix", Some (VBool true)) ]%string.

Definition TypeError (msg : string) : exception := Exception "TypeError" msg.

(** Positional arguments fill the leading parameters. *)
Fixpoint bind_positional (params : list param) (args : list value)
  : result (list (string * option value)) :=
  match params, args with
  | _, [] => Ok (map (fun p => (fst p, None)) params)
  | [], _ :: _ =>
      Raise (TypeError "compute() takes 7 positional arguments but more were given")
  | p :: params', a :: args' =>
      rbind (bind_positional params' args')
            (fun slots => Ok ((fst p, Some a) :: slots))
  end.

(** A keyword argument fills the parameter of that name. *)
Fixpoint bind_keyword (slots : list (string * option value))
    (name : string) (v : value) : result (list (string * option value)) :=
  match slots with
  | [] =>
      Raise (TypeError ("compute() got an unexpected keyword argument '"
                          ++ name ++ "'"))
  | (n, s) :: rest =>
      if String.eqb n name then
        match s with
        | Some _ =>
            Raise (TypeError ("compute() got multiple values for argument '"
                                ++ name ++ "'"))
        | None => Ok ((n, Some v) :: rest)
        end
      else rbind (bind_keyword rest name v) (fun r => Ok ((n, s) :: r))
  end.

Fixpoint bind_keywords (slots : list (string * option value))
    (kwargs : list (string * value)) : result (list (string * option value)) :=
  match kwargs with
  | [] => Ok slots
  | (name, v) :: rest =>
      rbind (bind_keyword slots name v) (fun s => bind_keywords s rest)
  end.

(** Unfilled parameters take their default; one without default is missing. *)
Fixpoint fill_defaults (params : list param)
    (slots : list (string * option value)) : result (list value) :=
  match params, slots with
  | (n, d) :: params', (_, s) :: slots' =>
      match s, d with
      | Some v, _ | None, Some v =>
          rbind (fill_defaults params' slots') (fun vs => Ok (v :: vs))
      | None, None =>
          Raise (TypeError ("compute() missing required argument '"
                              ++ n ++ "'"))
      end
  | _, _ => Ok []
  end.

Definition bind_arguments (params : list param) (args : list value)
    (kwargs : list (string * value)) : result (list value) :=
  rbind (bind_positional params args) (fun slots =>
  rbind (bind_keywords slots kwargs) (fun slots =>
  fill_defaults params slots)).

(** A call of [compute] with positional and keyword arguments.  [None]: the arguments are not of
    the annotated kinds, which this development does not follow further. *)
Definition call_compute {P : Primitives} (args : list value)
    (kwargs : list (string * value)) : option (M retval) :=
  match bind_arguments compute_params args kwargs with
  | Raise e => Some (lift (Raise e))
  | Ok [VPoints vertices; VFaces faces; VInt size; VBool fix_; VFloat level;
        VBool return_mesh; VBool new_fix] =>
      Some (compute vertices faces size fix_ level return_mesh new_fix)
  | Ok _ => None
  end.

End Signature.

(** ** Vocabulary of the specification *)

(** [lo < x < hi], both strict. *)
Definition strictly_between (lo x hi : float) : Prop :=
  (lo <? x) = true /\ (x <? hi) = true.

(** Every coordinate of [p] lies strictly within the extent of [b]. *)
Definition point_inside (p : point) (b : box) : Prop :=
  let '(x, y, z) := p in
  let '((lx, ly, lz), (hx, hy, hz)) := b in
  strictly_between lx x hx /\ strictly_between ly y hy /\
  strictly_between lz z hz.

(** Both corners of [inner] lie within [outer] on all three axes. *)
Definition box_inside (inner outer : box) : Prop :=
  point_inside (fst inner) outer /\ point_inside (snd inner) outer.




(** [c_other] discards [c]: it is another object and its bounds contain
    both corners of the bounds of [c] (lines 48-51). *)
Definition discards {P : Primitives} (c_other c : Trimesh) : bool :=
  mesh_ne c_other c && all (bounds_contains (bounds c_other) (rows (bounds c))).

(** The bounding-box diagonal of a component, as the specification words
    the single-pick criterion: the length of [bbmax - bbmin]. *)
Definition bbox_diagonal (c : Trimesh) : result float :=
  rbind (min0 (vertices c)) (fun bbmin =>
  rbind (max0 (vertices c)) (fun bbmax =>
  let '(dx, dy, dz) := pointwise PrimFloat.sub bbmax bbmin in
  Ok (sqrt (dx * dx + dy * dy + dz * dz)))).

(** The kind of an external call, to speak of the order of stages. *)
Inductive stage : Type :=
| GridField | IsoExtractor | MeshBuild | ComponentSplitter | Merge.

Definition stage_of (c : Call) : stage :=
  match c with
  | call_core_compute _ _ _ => GridField
  | call_marching_cubes _ _ => IsoExtractor
  | call_Trimesh _ _ => MeshBuild
  | call_split _ => ComponentSplitter
  | call_concatenate _ => Merge
  end.

Definition stage_eqb (a b : stage) : bool :=
  match a, b with
  | GridField, GridField | IsoExtractor, IsoExtractor
  | MeshBuild, MeshBuild | ComponentSplitter, ComponentSplitter
  | Merge, Merge => true
  | _, _ => false
  end.

(** How many calls of a trace belong to a stage. *)
Definition count_stage (s : stage) (tr : list Call) : nat :=
  List.length (filter (fun c => stage_eqb (stage_of c) s) tr).

(** The stages of the repair branch, in order. *)
Definition repair_stages (new_fix : bool) : list stage :=
  [GridField; IsoExtractor; MeshBuild; ComponentSplitter]
    ++ (if new_fix then [Merge] else []) ++ [GridField].

(** ** Concrete stand-ins for the primitives, to run the pipeline *)

Module Demo.

Definition point_eqb (p q : point) : bool :=
  let '(px, py, pz) := p in
  let '(qx, qy, qz) := q in
  Leibniz.eqb px qx && Leibniz.eqb py qy && Leibniz.eqb pz qz.

Definition face_eqb (p q : face) : bool :=
  let '(a, b, c) := p in
  let '(a', b', c') := q in
  (a =? a')%Z && (b =? b')%Z && (c =? c')%Z.

Fixpoint list_eqb {A} (eqb : A -> A -> bool) (l l' : list A) : bool :=
  match l, l' with
  | [], [] => true
  | x :: t, y :: t' => eqb x y && list_eqb eqb t t'
  | _, _ => false
  end.

Definition Trimesh_eqb (a b : Trimesh) : bool :=
  list_eqb point_eqb (vertices a) (vertices b)
  && list_eqb face_eqb (faces a) (faces b).

(** Bounds as min and max over the vertex array. *)
Definition vertex_bounds (m : Trimesh) : box :=
  match min0 (vertices m), max0 (vertices m) with
  | Ok lo, Ok hi => (lo, hi)
  | _, _ => ((nan, nan, nan), (nan, nan, nan))
  end.

(** Vertex arrays stacked, face indices shifted past the earlier vertices. *)
Fixpoint stack (cs : list Trimesh) (acc : Trimesh) : Trimesh :=
  match cs with
  | [] => acc
  | c :: rest =>
      let off := Z.of_nat (List.length (vertices acc)) in
      stack rest
        {| vertices := vertices acc ++ vertices c;
           faces := faces acc
                    ++ map (fun '(i, j, k) => (i + off, j + off, k + off)%Z)
                           (faces c) |}
  end.

(** An extractor that refuses a level outside the range of the field. *)
Definition range_checked (soup : list point * list face)
    (sdf : ndarray) (level : float) : result (list point * list face) :=
  match data sdf with
  | [] => Raise (Exception "ValueError" "Input volume should be a 3D numpy array.")
  | x :: rest =>
      if (level <? fold_left np_minimum rest x)
         || (fold_left np_maximum rest x <? level)
      then Raise (Exception "ValueError"
                    "Surface level must be within volume data range.")
      else Ok soup
  end.

(** An extractor that returns its soup whatever the level. *)
Definition unchecked (soup : list point * list face)
    (sdf : ndarray) (level : float) : result (list point * list face) :=
  Ok soup.

(** Stand-ins: the field lists the x coordinates it was given, the
    extractor is [iso], and splitting yields [components]. *)
Definition primitives
    (iso : ndarray -> float -> result (list point * list face))
    (components : list Trimesh) : Primitives :=
  {| core_compute := fun v f size =>
       Ok {| shape := [size; size; size];
             data := map (fun '(x, _, _) => x) v |};
     marching_cubes := iso;
     Trimesh_init := fun v f => Ok {| vertices := v; faces := f |};
     split := fun _ => Ok components;
     bounds := vertex_bounds;
     mesh_ne := fun a b => negb (Trimesh_eqb a b);
     concatenate := fun cs => Ok (stack cs {| vertices := []; faces := [] |}) |}.

(** An axis-aligned slab from corner [lo] to corner [hi], as one triangle
    pair; enough to carry a bounding box. *)
Definition slab (lo hi : point) : Trimesh :=
  let '(lx, ly, lz) := lo in
  let '(hx, hy, hz) := hi in
  {| vertices := [(lx, ly, lz); (hx, ly, lz); (lx, hy, hz); (hx, hy, hz)];
     faces := [(0, 1, 2); (1, 3, 2)]%Z |}.

(** The same slab with its two triangles listed the other way round: a
    different mesh with the same bounds. *)
Definition slab_twin (lo hi : point) : Trimesh :=
  {| vertices := vertices (slab lo hi); faces := [(1, 3, 2); (0, 1, 2)]%Z |}.

(** Two components with equal bounds, and a third whose bounds contain
    them. *)
Definition inner : Trimesh := slab (10, 10, 10) (13, 13, 13).
Definition inner_twin : Trimesh := slab_twin (10, 10, 10) (13, 13, 13).
Definition outer : Trimesh := slab (0, 0, 0) (30, 30, 30).


(** A component with a long side and a short diagonal, next to [inner]. *)
Definition rod : Trimesh := slab (20, 20, 20) (24, 21, 21).

Definition input_vertices : list point :=
  [(-0.5, -0.5, -0.5); (0.5, -0.5, -0.5); (0, 0.5, 0); (0, 0, 0.5)].

Definition input_faces : list face :=
  [(0, 1, 2); (0, 1, 3); (1, 2, 3); (0, 2, 3)]%Z.

Definition soup : list point * list face :=
  ([(1, 1, 1); (5, 1, 1); (1, 5, 5)], [(0, 1, 2)]%Z).

End Demo.

(** * Properties *)

(** ** Order facts about binary64 comparison *)

Module FloatOrder.

Ltac sf_cases :=
  repeat match goal with
  | s : spec_float |- _ => destruct s
  | b : bool |- _ => destruct b
  end; cbn; try congruence.

Ltac cmp_cases :=
  repeat match goal with
  | |- context [ Pos.compare_cont Eq ?a ?b ] =>
      change (Pos.compare_cont Eq a b) with (Pos.compare a b)
  | H : context [ Pos.compare_cont Eq ?a ?b ] |- _ =>
      change (Pos.compare_cont Eq a b) with (Pos.compare a b) in H
  | |- context [ Z.compare ?a ?b ] => destruct (Z.compare_spec a b)
  | H : context [ Z.compare ?a ?b ] |- _ => destruct (Z.compare_spec a b)
  | |- context [ Pos.compare ?a ?b ] => destruct (Pos.compare_spec a b)
  | H : context [ Pos.compare ?a ?b ] |- _ => destruct (Pos.compare_spec a b)
  end; cbn in *; try congruence; try lia.

Lemma SFltb_irrefl a : SFltb a a = false.
Proof. unfold SFltb, SFcompare. sf_cases; cmp_cases. Qed.

Lemma SFltb_trans a b c :
  SFltb a b = true -> SFltb b c = true -> SFltb a c = true.
Proof. unfold SFltb, SFcompare. sf_cases; intros; cmp_cases. Qed.

Lemma SFleb_ltb_false a b : SFleb a b = true -> SFltb b a = false.
Proof. unfold SFleb, SFltb, SFcompare. sf_cases; intros; cmp_cases. Qed.

Lemma SFleb_total a b :
  a <> S754_nan -> b <> S754_nan -> SFleb a b = false -> SFltb b a = true.
Proof. unfold SFleb, SFltb, SFcompare. sf_cases; intros; cmp_cases. Qed.

Lemma SFeqb_refl_nan a : SFeqb a a = false <-> a = S754_nan.
Proof. unfold SFeqb, SFcompare. split; sf_cases; intros; cmp_cases. Qed.

Lemma SFeqb_ltb_false a b : SFeqb a b = true -> SFltb a b = false.
Proof. unfold SFeqb, SFltb. destruct (SFcompare a b) as [[]|]; congruence. Qed.

Local Open Scope float_scope.

Lemma ltb_irrefl (x : float) : (x <? x) = false.
Proof. rewrite ltb_spec. apply SFltb_irrefl. Qed.

Lemma ltb_trans (x y z : float) :
  (x <? y) = true -> (y <? z) = true -> (x <? z) = true.
Proof. rewrite !ltb_spec. apply SFltb_trans. Qed.

Lemma leb_ltb_false (x y : float) : (x <=? y) = true -> (y <? x) = false.
Proof. rewrite leb_spec, ltb_spec. apply SFleb_ltb_false. Qed.

Lemma eqb_ltb_false (x y : float) : (x =? y) = true -> (x <? y) = false.
Proof. rewrite eqb_spec, ltb_spec. apply SFeqb_ltb_false. Qed.

Lemma is_nan_spec (x : float) : is_nan x = true <-> Prim2SF x = S754_nan.
Proof.
  unfold is_nan. rewrite eqb_spec, negb_true_iff. apply SFeqb_refl_nan.
Qed.

Lemma is_nan_false (x : float) : is_nan x = false -> Prim2SF x <> S754_nan.
Proof.
  intros H E. apply is_nan_spec in E. congruence.
Qed.

Lemma leb_total (x y : float) :
  is_nan x = false -> is_nan y = false ->
  (x <=? y) = false -> (y <? x) = true.
Proof.
  intros Hx Hy. rewrite leb_spec, ltb_spec.
  apply SFleb_total; now apply is_nan_false.
Qed.

Lemma nan_ltb_false (x y : float) : is_nan x = true -> (x <? y) = false.
Proof.
  intros H. apply is_nan_spec in H. rewrite ltb_spec, H. reflexivity.
Qed.

Lemma nan_leb_false (x y : float) : is_nan x = true -> (x <=? y) = false.
Proof.
  intros H. apply is_nan_spec in H. rewrite leb_spec, H. reflexivity.
Qed.

Lemma leb_not_nan (x y : float) : (x <=? y) = true -> is_nan x = false.
Proof.
  intros H. destruct (is_nan x) eqn:E; [|reflexivity].
  rewrite (nan_leb_false x y E) in H. discriminate.
Qed.

Lemma leb_trans (x y z : float) :
  (x <=? y) = true -> (y <=? z) = true -> (x <=? z) = true.
Proof.
  rewrite !leb_spec. unfold SFleb, SFcompare.
  destruct (Prim2SF x), (Prim2SF y), (Prim2SF z); sf_cases; intros; cmp_cases.
Qed.

Lemma ltb_leb_false (x y : float) : (x <? y) = true -> (y <=? x) = false.
Proof.
  intros H. destruct (y <=? x) eqn:E; [|reflexivity].
  apply leb_ltb_false in E. congruence.
Qed.

Lemma ltb_false_leb (x y : float) :
  is_nan x = false -> is_nan y = false ->
  (x <? y) = false -> (y <=? x) = true.
Proof.
  intros Hx Hy H. destruct (y <=? x) eqn:E; [reflexivity|].
  apply leb_total in E; auto. congruence.
Qed.

End FloatOrder.


(** ** The containment test *)

Section Containment.

Local Open Scope float_scope.

Lemma row_gt_spec (p q : point) :
  row_gt p q = true <->
  let '(px, py, pz) := p in
  let '(qx, qy, qz) := q in
  (qx <? px) = true /\ (qy <? py) = true /\ (qz <? pz) = true.
Proof.
  destruct p as [[px py] pz], q as [[qx qy] qz]; cbn.
  rewrite !andb_true_iff. tauto.
Qed.

Lemma row_lt_spec (p q : point) :
  row_lt p q = true <->
  let '(px, py, pz) := p in
  let '(qx, qy, qz) := q in
  (px <? qx) = true /\ (py <? qy) = true /\ (pz <? qz) = true.
Proof.
  destruct p as [[px py] pz], q as [[qx qy] qz]; cbn.
  rewrite !andb_true_iff. tauto.
Qed.

(** One flag of [trimesh.bounds.contains]: the point is strictly inside. *)
Lemma contains_flag_spec (b : box) (p : point) :
  row_gt p (fst b) && row_lt p (snd b) = true <-> point_inside p b.
Proof.
  rewrite andb_true_iff, row_gt_spec, row_lt_spec.
  destruct b as [[[lx ly] lz] [[hx hy] hz]], p as [[x y] z]; cbn.
  unfold strictly_between. tauto.
Qed.

(** [all(contains(outer, inner))] holds exactly when both corners of
    [inner] are strictly inside [outer]. *)
Lemma all_contains_spec (outer inner : box) :
  all (bounds_contains outer (rows inner)) = true <-> box_inside inner outer.
Proof.
  unfold all, bounds_contains, rows, box_inside; cbn.
  rewrite andb_true_r, andb_true_iff, !contains_flag_spec. tauto.
Qed.

(** No box is inside itself: the comparisons are strict. *)
Lemma box_inside_irrefl (b : box) : ~ box_inside b b.
Proof.
  intros [Hmin _].
  destruct b as [[[lx ly] lz] [[hx hy] hz]]; cbn in Hmin.
  destruct Hmin as [[H _] _].
  rewrite FloatOrder.ltb_irrefl in H. discriminate.
Qed.

(** Containment is transitive. *)
Lemma box_inside_trans (a b c : box) :
  box_inside a b -> box_inside b c -> box_inside a c.
Proof.
  destruct a as [[[alx aly] alz] [[ahx ahy] ahz]].
  destruct b as [[[blx bly] blz] [[bhx bhy] bhz]].
  destruct c as [[[clx cly] clz] [[chx chy] chz]].
  unfold box_inside; cbn.
  unfold strictly_between.
  intros [([A1 A1'] & [A2 A2'] & [A3 A3']) ([A4 A4'] & [A5 A5'] & [A6 A6'])].
  intros [([B1 B1'] & [B2 B2'] & [B3 B3']) ([B4 B4'] & [B5 B5'] & [B6 B6'])].
  repeat split; eauto using FloatOrder.ltb_trans.
Qed.

Lemma box_inside_dec (a b : box) : {box_inside a b} + {~ box_inside a b}.
Proof.
  destruct (all (bounds_contains b (rows a))) eqn:E.
  - left. now apply all_contains_spec.
  - right. intros H. apply all_contains_spec in H. congruence.
Qed.

End Containment.

(** ** ShellSelector, containment policy *)

Section ShellSelector.

Context {P : Primitives}.

Lemma keep_flag_fold (c : Trimesh) (l : list Trimesh) (keep_flag : bool) :
  fold_left
    (fun keep_flag c_other =>
       if mesh_ne c_other c then
         if all (bounds_contains (bounds c_other) (rows (bounds c)))
         then false else keep_flag
       else keep_flag) l keep_flag
  = keep_flag && forallb (fun c_other => negb (discards c_other c)) l.
Proof.
  revert keep_flag. induction l as [|x l IH]; intros k; cbn [fold_left forallb].
  - now rewrite andb_true_r.
  - rewrite IH. unfold discards.
    destruct (mesh_ne x c), (all _), k; reflexivity.
Qed.

Lemma keep_flag_of_forallb (components : list Trimesh) (c : Trimesh) :
  keep_flag_of components c
  = forallb (fun c_other => negb (discards c_other c)) components.
Proof. unfold keep_flag_of. now rewrite keep_flag_fold. Qed.

(** The flag of [c] is set exactly when no other component contains it. *)
Lemma keep_flag_of_spec (components : list Trimesh) (c : Trimesh) :
  keep_flag_of components c = true <->
  ~ exists c', In c' components /\ mesh_ne c' c = true
               /\ box_inside (bounds c) (bounds c').
Proof.
  rewrite keep_flag_of_forallb, forallb_forall. split.
  - intros H (c' & Hin & Hne & Hbox).
    specialize (H c' Hin). unfold discards in H.
    apply all_contains_spec in Hbox. rewrite Hne, Hbox in H. discriminate.
  - intros H c' Hin. unfold discards.
    destruct (mesh_ne c' c) eqn:Hne; [|reflexivity].
    destruct (all _) eqn:Hall; [|reflexivity].
    exfalso. apply H. exists c'. split; [assumption|]. split; [assumption|].
    now apply all_contains_spec.
Qed.

Lemma keep_flags_fold (f : Trimesh -> bool) (l : list Trimesh)
    (keep_flags : list bool) :
  fold_left (fun keep_flags c => keep_flags ++ [f c]) l keep_flags
  = keep_flags ++ map f l.
Proof.
  revert keep_flags. induction l as [|x l IH]; intros acc; cbn.
  - now rewrite app_nil_r.
  - rewrite IH, <- app_assoc. reflexivity.
Qed.

(** One flag per component, in order. *)
Lemma keep_flags_of_map (components : list Trimesh) :
  keep_flags_of components = map (keep_flag_of components) components.
Proof. unfold keep_flags_of. now rewrite keep_flags_fold. Qed.

Lemma kept_map (f : Trimesh -> bool) (l : list Trimesh) :
  kept l (map f l) = filter f l.
Proof.
  unfold kept. induction l as [|x l IH]; cbn; [reflexivity|].
  destruct (f x); cbn; now rewrite IH.
Qed.

(** The surviving list is the input filtered by the flags. *)
Lemma kept_filter (components : list Trimesh) :
  kept components (keep_flags_of components)
  = filter (keep_flag_of components) components.
Proof. now rewrite keep_flags_of_map, kept_map. Qed.

Lemma In_kept (components : list Trimesh) (c : Trimesh) :
  In c (kept components (keep_flags_of components)) <->
  In c components /\ keep_flag_of components c = true.
Proof. rewrite kept_filter. apply filter_In. Qed.

(** A finite non-empty family of boxes has one that lies in no other. *)
Lemma outermost_exists (l : list Trimesh) :
  l <> [] ->
  exists m, In m l /\ forall c, In c l -> ~ box_inside (bounds m) (bounds c).
Proof.
  induction l as [|a l IH]; [congruence|]. intros _.
  destruct l as [|b l].
  - exists a. split; [now left|]. intros c [<-|[]]. apply box_inside_irrefl.
  - destruct IH as (m & Hm & Hmax); [congruence|].
    destruct (box_inside_dec (bounds m) (bounds a)) as [Hma|Hma].
    + exists a. split; [now left|]. intros c [<-|Hc].
      * apply box_inside_irrefl.
      * intros Hac. apply (Hmax c Hc). eapply box_inside_trans; eauto.
    + exists m. split; [now right|]. intros c [<-|Hc]; auto.
Qed.

(** The containment rule never discards every component. *)
Lemma kept_nonempty (components : list Trimesh) :
  components <> [] -> kept components (keep_flags_of components) <> [].
Proof.
  intros Hne. destruct (outermost_exists components Hne) as (m & Hm & Hmax).
  assert (Hin : In m (kept components (keep_flags_of components))).
  { apply In_kept. split; [assumption|]. apply keep_flag_of_spec.
    intros (c' & Hc' & _ & Hbox). exact (Hmax c' Hc' Hbox). }
  intros E. rewrite E in Hin. exact Hin.
Qed.

End ShellSelector.



(** C10 (amended).  The containment test uses strict inequalities at both
    corners.  Two components with exactly equal bounds therefore never
    discard each other; both are kept when no component of the split has
    bounds that strictly contain theirs, in particular when they are the
    only two components. *)
Theorem equal_bounds_never_discard
    (P : Primitives) (components : list Trimesh) (A B : Trimesh)
    (Hbounds : bounds A = bounds B) :
  (forall outer inner,
     all (bounds_contains outer (rows inner)) = true <->
     box_inside inner outer)
  /\ discards A B = false /\ discards B A = false
  /\ (In A components -> In B components ->
      (forall c, In c components -> ~ box_inside (bounds A) (bounds c)) ->
      let kept_set := kept components (keep_flags_of components) in
      In A kept_set /\ In B kept_set)
  /\ kept [A; B] (keep_flags_of [A; B]) = [A; B].
Proof.
  assert (Hself : forall b : box, all (bounds_contains b (rows b)) = false).
  { intros b. destruct (all _) eqn:E; [|reflexivity].
    apply all_contains_spec in E. now apply box_inside_irrefl in E. }
  assert (HAB : discards A B = false).
  { unfold discards. rewrite Hbounds, Hself. apply andb_false_r. }
  assert (HBA : discards B A = false).
  { unfold discards. rewrite Hbounds, Hself. apply andb_false_r. }
  split; [exact all_contains_spec|]. split; [exact HAB|]. split; [exact HBA|].
  split.
  - intros HA HB Hfree. cbn zeta. split; apply In_kept; split; auto;
      apply keep_flag_of_spec; intros (c' & Hc' & _ & Hbox).
    + exact (Hfree c' Hc' Hbox).
    + rewrite <- Hbounds in Hbox. exact (Hfree c' Hc' Hbox).
  - rewrite kept_filter. cbn [filter].
    rewrite !keep_flag_of_forallb. cbn [forallb].
    rewrite HAB, HBA.
    assert (HAA : discards A A = false).
    { unfold discards. rewrite Hself. apply andb_false_r. }
    assert (HBB : discards B B = false).
    { unfold discards. rewrite Hself. apply andb_false_r. }
    rewrite HAA, HBB. reflexivity.
Qed.

(** C10, witness: the two slabs of equal bounds as the only components. *)
Lemma equal_bounds_never_discard_witness :
  let P := Demo.primitives (Demo.unchecked Demo.soup)
             [Demo.inner; Demo.inner_twin] in
  kept [Demo.inner; Demo.inner_twin]
       (keep_flags_of [Demo.inner; Demo.inner_twin])
  = [Demo.inner; Demo.inner_twin].
Proof.
  cbn zeta.
  apply (equal_bounds_never_discard
           (Demo.primitives (Demo.unchecked Demo.soup)
              [Demo.inner; Demo.inner_twin])
           [Demo.inner; Demo.inner_twin] Demo.inner Demo.inner_twin).
  reflexivity.
Defined.

(** C10, counterexample to "both are kept": two distinct components with
    equal bounds are both dropped when a third component contains them. *)
Lemma equal_bounds_both_dropped :
  let components := [Demo.inner; Demo.inner_twin; Demo.outer] in
  let P := Demo.primitives (Demo.unchecked Demo.soup) components in
  bounds Demo.inner = bounds Demo.inner_twin
  /\ mesh_ne Demo.inner Demo.inner_twin = true
  /\ kept components (keep_flags_of components) = [Demo.outer].
Proof. cbn zeta. repeat split; vm_compute; reflexivity. Qed.

(** ** numpy's argmax *)

Section Argmax.

Local Open Scope float_scope.

Import FloatOrder.

(** The loop keeps, in [mp], an element that nothing seen so far exceeds
    and that strictly exceeds everything before it. *)
Lemma argmax_loop_spec (ip : list float) :
  forall (mp : float) (before after : list float),
    is_nan mp = false ->
    (forall x, In x (before ++ after) -> is_nan x = false) ->
    (forall x, In x before -> (mp <=? x) = false) ->
    (forall x, In x after -> (mp <? x) = false) ->
    exists before' e after',
      before ++ mp :: after ++ ip = before' ++ e :: after'
      /\ List.length before'
         = argmax_loop mp (List.length before)
             (List.length (before ++ mp :: after)) ip
      /\ (forall x, In x before' -> (e <=? x) = false)
      /\ (forall x, In x after' -> (e <? x) = false).
Proof.
  induction ip as [|x rest IH]; intros mp before after Hmp Hnan Hb Ha.
  - exists before, mp, after. rewrite app_nil_r. cbn. auto.
  - cbn [argmax_loop]. destruct (x <=? mp) eqn:Hx; cbn [negb].
    + (* x does not beat mp *)
      destruct (IH mp before (after ++ [x])) as (b' & e & a' & E & L & Hb' & Ha').
      * assumption.
      * intros z Hz. rewrite app_assoc in Hz. apply in_app_or in Hz.
        destruct Hz as [Hz|[<-|[]]]; [auto|]. eapply leb_not_nan; eauto.
      * assumption.
      * intros z Hz. apply in_app_or in Hz.
        destruct Hz as [Hz|[<-|[]]]; [auto|]. now apply leb_ltb_false.
      * exists b', e, a'. rewrite <- E, <- app_assoc. cbn. split; [reflexivity|].
        split; [|auto]. rewrite L. f_equal.
        rewrite !length_app. cbn. rewrite length_app. cbn. lia.
    + destruct (is_nan x) eqn:Hxn.
      * (* a NaN ends the scan *)
        exists (before ++ mp :: after), x, rest.
        rewrite <- app_assoc. cbn. split; [reflexivity|]. split; [reflexivity|].
        split; intros z _; [now apply nan_leb_false | now apply nan_ltb_false].
      * (* x becomes the new maximum *)
        assert (Hlt : (mp <? x) = true) by now apply leb_total.
        destruct (IH x (before ++ mp :: after) []) as (b' & e & a' & E & L & Hb' & Ha').
        -- assumption.
        -- intros z Hz. rewrite app_nil_r in Hz. apply in_app_or in Hz.
           destruct Hz as [Hz|[<-|Hz]]; auto; apply Hnan, in_or_app; auto.
        -- intros z Hz. apply in_app_or in Hz. destruct Hz as [Hz|[<-|Hz]].
           ++ apply ltb_leb_false. apply ltb_trans with mp; [|assumption].
              apply leb_total; auto. apply Hnan, in_or_app; auto.
           ++ assumption.
           ++ destruct (x <=? z) eqn:Hxz; [|reflexivity].
              assert (Hzn : is_nan z = false) by (apply Hnan, in_or_app; auto).
              assert (Hzm : (z <=? mp) = true) by (apply ltb_false_leb; auto).
              rewrite (leb_trans _ _ _ Hxz Hzm) in Hx. discriminate.
        -- intros z [].
        -- exists b', e, a'. rewrite <- E, <- app_assoc. cbn.
           split; [reflexivity|]. split; [|auto]. rewrite L. f_equal.
           rewrite !length_app. cbn. lia.
Qed.

(** [np.argmax] returns the position of an element that no element exceeds
    and that no earlier element reaches. *)
Lemma np_argmax_spec (a : list float) :
  a <> [] ->
  exists before e after,
    a = before ++ e :: after
    /\ np_argmax a = Ok (List.length before)
    /\ (forall x, In x before -> (e <=? x) = false)
    /\ (forall x, In x after -> (e <? x) = false).
Proof.
  destruct a as [|mp rest]; [congruence|]. intros _. cbn [np_argmax].
  destruct (is_nan mp) eqn:Hmp.
  - exists [], mp, rest. cbn. repeat split; [intros x []|].
    intros x _. now apply nan_ltb_false.
  - destruct (argmax_loop_spec rest mp [] [] Hmp) as (b' & e & a' & E & L & Hb' & Ha').
    + intros x [].
    + intros x [].
    + intros x [].
    + exists b', e, a'. cbn in E, L. rewrite L. auto.
Qed.

End Argmax.

(** ** ShellSelector, single-pick policy *)

Section SinglePick.

Context {P : Primitives}.

Local Open Scope float_scope.

Lemma extent_defined (c : Trimesh) :
  vertices c <> [] -> exists e, extent c = Ok e.
Proof.
  unfold extent, min0, max0. destruct (vertices c); [congruence|].
  intros _. cbn. eauto.
Qed.

(** The loop appends one extent per component, in order. *)
Lemma bbox_loop_spec (components : list Trimesh) :
  forall bbox,
    (forall c, In c components -> vertices c <> []) ->
    exists es, bbox_loop bbox components = Ok (bbox ++ es)
               /\ Forall2 (fun c e => extent c = Ok e) components es.
Proof.
  induction components as [|c rest IH]; intros bbox Hv.
  - exists []. rewrite app_nil_r. cbn. auto.
  - destruct (extent_defined c) as [e He]; [apply Hv; now left|].
    destruct (IH (bbox ++ [e])) as (es & E & F).
    { intros c' Hc'. apply Hv. now right. }
    exists (e :: es). cbn [bbox_loop]. rewrite He. cbn [rbind].
    rewrite E, <- app_assoc. cbn. auto.
Qed.

Lemma getitem_middle {A} (before after : list A) (x : A) :
  getitem (before ++ x :: after) (List.length before) = Ok x.
Proof.
  unfold getitem. rewrite nth_error_app2 by lia.
  now rewrite Nat.sub_diag.
Qed.

End SinglePick.

(** C2 (amended).  Single-pick policy: when the split is not empty and every
    component has a vertex, exactly one component is selected and nothing is
    merged.  The criterion is the largest side of the bounding box (the
    maximum over the axes of max - min), not its diagonal: no component has
    a strictly larger side than the selected one, and none before it in
    split order reaches its side. *)
Theorem single_pick_largest_side
    (P : Primitives) (components : list Trimesh)
    (Hsome : components <> [])
    (Hverts : forall c, In c components -> vertices c <> []) :
  exists before c after e,
    components = before ++ c :: after
    /\ select_shell false components = (Ok c, [])
    /\ extent c = Ok e
    /\ (forall c', In c' before ->
          exists e', extent c' = Ok e' /\ (e <=? e')%float = false)
    /\ (forall c', In c' after ->
          exists e', extent c' = Ok e' /\ (e <? e')%float = false).
Proof.
  destruct (bbox_loop_spec components [] Hverts) as (es & Hbbox & F).
  cbn [app] in Hbbox.
  assert (Hes : es <> []).
  { intros ->. inversion F. congruence. }
  destruct (np_argmax_spec es Hes) as (eb & e & ea & Ees & Harg & Hb & Ha).
  subst es. apply Forall2_app_inv_r in F.
  destruct F as (before & tail & Fb & Ft & ->).
  inversion Ft as [|c e0 after ea0 Hc Fa]; subst.
  exists before, c, after, e. split; [reflexivity|].
  assert (Hlen : List.length before = List.length eb)
    by (eapply Forall2_length; eauto).
  split; [|split; [assumption|split]].
  - unfold select_shell, bbox_of. rewrite Hbbox. cbn.
    rewrite Harg. cbn. rewrite <- Hlen, getitem_middle. reflexivity.
  - intros c' Hc'. clear - Fb Hb Hc'.
    induction Fb as [|x y l l' Hxy Fb IH]; [destruct Hc'|].
    destruct Hc' as [<-|Hc'].
    + exists y. split; [assumption|]. apply Hb. now left.
    + apply IH; [|assumption]. intros z Hz. apply Hb. now right.
  - intros c' Hc'. clear - Fa Ha Hc'.
    induction Fa as [|x y l l' Hxy Fa IH]; [destruct Hc'|].
    destruct Hc' as [<-|Hc'].
    + exists y. split; [assumption|]. apply Ha. now left.
    + apply IH; [|assumption]. intros z Hz. apply Ha. now right.
Qed.

(** C2, witness: a cube and a rod; the rod has the longer side. *)
Lemma single_pick_largest_side_witness :
  exists before c after e,
    [Demo.inner; Demo.rod] = before ++ c :: after
    /\ @select_shell (Demo.primitives (Demo.unchecked Demo.soup) [])
         false [Demo.inner; Demo.rod] = (Ok c, [])
    /\ extent c = Ok e
    /\ (forall c', In c' before ->
          exists e', extent c' = Ok e' /\ (e <=? e')%float = false)
    /\ (forall c', In c' after ->
          exists e', extent c' = Ok e' /\ (e <? e')%float = false).
Proof.
  apply (single_pick_largest_side
           (Demo.primitives (Demo.unchecked Demo.soup) [])
           [Demo.inner; Demo.rod]).
  - discriminate.
  - intros c [<-|[<-|[]]]; discriminate.
Defined.

(** C2, counterexample: of a cube (side 3, diagonal about 5.2) and a rod
    (side 4, diagonal about 4.2) the single-pick policy selects the rod,
    although the cube has the largest bounding-box diagonal. *)
Lemma single_pick_not_largest_diagonal :
  let components := [Demo.inner; Demo.rod] in
  let P := Demo.primitives (Demo.unchecked Demo.soup) components in
  outcome (select_shell false components) = Ok Demo.rod
  /\ (exists sdf repaired,
        outcome (compute Demo.input_vertices Demo.input_faces 128
                   true 0.015 true false) = Ok (SdfMesh sdf repaired)
        /\ renormalize Demo.rod 128 = Ok repaired)
  /\ exists d_cube d_rod,
       bbox_diagonal Demo.inner = Ok d_cube
       /\ bbox_diagonal Demo.rod = Ok d_rod
       /\ (d_rod <? d_cube)%float = true.
Proof.
  cbn zeta. split; [vm_compute; reflexivity|]. split.
  - eexists. eexists. split; vm_compute; reflexivity.
  - eexists. eexists. split; [vm_compute; reflexivity|].
    split; [vm_compute; reflexivity|]. vm_compute. reflexivity.
Qed.

(** ** The orchestrator: runs of [compute] *)

Section Runs.

Context {P : Primitives}.

Lemma bind_extern_ok {A B} (c : Call) (a : A) (k : A -> M B) :
  bind (extern c (Ok a)) k = (fst (k a), c :: snd (k a)).
Proof. unfold bind, extern. now destruct (k a). Qed.

Lemma bind_extern_raise {A B} (c : Call) (e : exception) (k : A -> M B) :
  bind (extern c (Raise e)) k = (Raise e, [c]).
Proof. reflexivity. Qed.

Lemma bind_lift_ok {A B} (a : A) (k : A -> M B) : bind (lift (Ok a)) k = k a.
Proof. unfold bind, lift. now destruct (k a). Qed.

Lemma bind_lift_raise {A B} (e : exception) (k : A -> M B) :
  bind (lift (Raise e)) k = (Raise e, []).
Proof. reflexivity. Qed.

Lemma bind_ok {A B} (a : A) (tr : list Call) (k : A -> M B) :
  bind (Ok a, tr) k = (fst (k a), tr ++ snd (k a)).
Proof. unfold bind. now destruct (k a). Qed.

Lemma bind_raise {A B} (e : exception) (tr : list Call) (k : A -> M B) :
  bind (Raise e, tr) k = (Raise e, tr).
Proof. reflexivity. Qed.

(** The selection makes at most one external call: the merge. *)
Lemma select_shell_trace (new_fix : bool) (components : list Trimesh) :
  trace (select_shell new_fix components)
  = if new_fix
    then [call_concatenate (kept components (keep_flags_of components))]
    else [].
Proof.
  unfold select_shell. destruct new_fix; [reflexivity|].
  destruct (bbox_of components) as [bbox|e]; [|reflexivity].
  rewrite bind_lift_ok.
  destruct (np_argmax bbox) as [i|e]; [|reflexivity].
  rewrite bind_lift_ok. reflexivity.
Qed.

Lemma select_shell_empty :
  select_shell true [] = extern (call_concatenate []) (concatenate []).
Proof. reflexivity. Qed.

(** A complete run of the repair branch, stage by stage. *)
Lemma repair_run (sdf1 : ndarray) (size : Z) (level : float)
    (return_mesh new_fix : bool)
    iso_vertices iso_faces mesh0 components mesh1 tr_sel mesh2 sdf2 :
  marching_cubes (np_abs sdf1) level = Ok (iso_vertices, iso_faces) ->
  Trimesh_init iso_vertices iso_faces = Ok mesh0 ->
  split mesh0 = Ok components ->
  select_shell new_fix components = (Ok mesh1, tr_sel) ->
  renormalize mesh1 size = Ok mesh2 ->
  core_compute (vertices mesh2) (faces mesh2) size = Ok sdf2 ->
  repair sdf1 size level return_mesh new_fix
  = (Ok (if return_mesh then SdfMesh sdf2 mesh2 else Sdf sdf2),
     [call_marching_cubes (np_abs sdf1) level;
      call_Trimesh iso_vertices iso_faces;
      call_split mesh0]
     ++ tr_sel
     ++ [call_core_compute (vertices mesh2) (faces mesh2) size]).
Proof.
  intros Hmc Htm Hsp Hsel Hre Hcc. unfold repair.
  rewrite Hmc, bind_extern_ok. cbn beta iota.
  rewrite Htm, bind_extern_ok, Hsp, bind_extern_ok, Hsel, bind_ok.
  rewrite Hre, bind_lift_ok, Hcc, bind_extern_ok. reflexivity.
Qed.

Lemma compute_fix_run (v : list point) (f : list face) (size : Z)
    (level : float) (return_mesh new_fix : bool)
    sdf1 iso_vertices iso_faces mesh0 components mesh1 tr_sel mesh2 sdf2 :
  core_compute v f size = Ok sdf1 ->
  marching_cubes (np_abs sdf1) level = Ok (iso_vertices, iso_faces) ->
  Trimesh_init iso_vertices iso_faces = Ok mesh0 ->
  split mesh0 = Ok components ->
  select_shell new_fix components = (Ok mesh1, tr_sel) ->
  renormalize mesh1 size = Ok mesh2 ->
  core_compute (vertices mesh2) (faces mesh2) size = Ok sdf2 ->
  compute v f size true level return_mesh new_fix
  = (Ok (if return_mesh then SdfMesh sdf2 mesh2 else Sdf sdf2),
     [call_core_compute v f size;
      call_marching_cubes (np_abs sdf1) level;
      call_Trimesh iso_vertices iso_faces;
      call_split mesh0]
     ++ tr_sel
     ++ [call_core_compute (vertices mesh2) (faces mesh2) size]).
Proof.
  intros Hc1 Hmc Htm Hsp Hsel Hre Hcc. unfold compute.
  rewrite Hc1, bind_extern_ok. cbn [negb].
  erewrite repair_run by eassumption. reflexivity.
Qed.

(** What [renormalize] stores, given the divisor [float(size - 1)]. *)
Lemma renormalize_defined (mesh : Trimesh) (size : Z) (d : float) :
  float_of_int (size - 1) = Ok d -> (d =? 0)%float = false ->
  renormalize mesh size
  = Ok (set_vertices mesh (map (renorm_point (2 / d)) (vertices mesh))).
Proof.
  intros Hd Hz. unfold renormalize, float_truediv_int.
  rewrite Hd. cbn [rbind]. rewrite Hz. reflexivity.
Qed.

(** For every resolution from 2 to 4096 the divisor [float(size - 1)] is
    defined and not zero. *)
Lemma divisor_defined (size : Z) :
  (2 <= size <= 4096)%Z ->
  exists d, float_of_int (size - 1) = Ok d /\ (d =? 0)%float = false.
Proof.
  intros Hsize.
  assert (Hall : forallb
                   (fun k => match float_of_int (Z.of_nat k) with
                             | Ok d => negb (d =? 0)%float
                             | Raise _ => false
                             end) (seq 1 4095) = true)
    by (vm_compute; reflexivity).
  rewrite forallb_forall in Hall.
  specialize (Hall (Z.to_nat (size - 1))).
  rewrite Z2Nat.id in Hall by lia.
  destruct (float_of_int (size - 1)) as [d|e].
  - exists d. split; [reflexivity|]. apply negb_true_iff, Hall, in_seq. lia.
  - assert (false = true) by (apply Hall, in_seq; lia). discriminate.
Qed.

(** Hence the renormalisation is defined for these resolutions. *)
Lemma renormalize_defined_for_sizes (mesh : Trimesh) (size : Z) :
  (2 <= size <= 4096)%Z ->
  exists d,
    float_of_int (size - 1) = Ok d
    /\ renormalize mesh size
       = Ok (set_vertices mesh (map (renorm_point (2 / d)) (vertices mesh))).
Proof.
  intros Hsize. destruct (divisor_defined size Hsize) as (d & Hd & Hz).
  exists d. split; [assumption|]. now apply renormalize_defined.
Qed.

End Runs.

(** C3.  In the repair branch every vertex coordinate [v] of the selected
    (merged) mesh, which is in voxel-index units, is replaced by
    [v * (2 / (size - 1)) - 1], with [size - 1] converted to a float, and
    the second GridField pass is called on exactly these vertices (and the
    unchanged faces). *)
Theorem renormalizer_transform
    (P : Primitives) (v : list point) (f : list face) (size : Z)
    (level : float) (return_mesh new_fix : bool)
    sdf1 iso_vertices iso_faces mesh0 components merged tr_sel (d : float)
    (Hfield : core_compute v f size = Ok sdf1)
    (Hiso : marching_cubes (np_abs sdf1) level = Ok (iso_vertices, iso_faces))
    (Hmesh : Trimesh_init iso_vertices iso_faces = Ok mesh0)
    (Hsplit : split mesh0 = Ok components)
    (Hselect : select_shell new_fix components = (Ok merged, tr_sel))
    (Hdiv : float_of_int (size - 1) = Ok d)
    (Hnonzero : (d =? 0)%float = false) :
  let renormalized :=
    map (fun '(x, y, z) =>
           (x * (2 / d) - 1, y * (2 / d) - 1, z * (2 / d) - 1)%float)
        (vertices merged) in
  renormalize merged size = Ok (set_vertices merged renormalized)
  /\ trace (compute v f size true level return_mesh new_fix)
     = [call_core_compute v f size;
        call_marching_cubes (np_abs sdf1) level;
        call_Trimesh iso_vertices iso_faces;
        call_split mesh0]
       ++ tr_sel
       ++ [call_core_compute renormalized (faces merged) size].
Proof.
  cbn zeta.
  assert (Hmap : map (renorm_point (2 / d)) (vertices merged)
                 = map (fun '(x, y, z) =>
                          (x * (2 / d) - 1, y * (2 / d) - 1,
                           z * (2 / d) - 1)%float) (vertices merged)).
  { apply map_ext. intros [[x y] z]. reflexivity. }
  pose proof (renormalize_defined merged size d Hdiv Hnonzero) as Hre.
  rewrite Hmap in Hre. split; [exact Hre|].
  unfold compute. rewrite Hfield, bind_extern_ok. cbn [negb].
  unfold repair. rewrite Hiso, bind_extern_ok. cbn beta iota.
  rewrite Hmesh, bind_extern_ok, Hsplit, bind_extern_ok, Hselect, bind_ok.
  rewrite Hre, bind_lift_ok. cbn [set_vertices vertices faces].
  destruct (core_compute _ (faces merged) size) as [sdf2|e].
  - rewrite bind_extern_ok. reflexivity.
  - rewrite bind_extern_raise. reflexivity.
Qed.

(** C3, witness: size 128, two components merged under the containment
    policy; the divisor is 127. *)
Lemma renormalizer_transform_witness :
  let P := Demo.primitives (Demo.range_checked Demo.soup)
             [Demo.inner; Demo.rod] in
  exists merged renormalized,
    renormalize merged 128 = Ok (set_vertices merged renormalized)
    /\ nth_error (trace (compute Demo.input_vertices Demo.input_faces 128
                           true 0.015 false true)) 5
       = Some (call_core_compute renormalized (faces merged) 128).
Proof.
  cbn zeta.
  pose proof
    (renormalizer_transform
       (Demo.primitives (Demo.range_checked Demo.soup) [Demo.inner; Demo.rod])
       Demo.input_vertices Demo.input_faces 128 0.015 false true
       _ _ _ _ _ _ _ 127
       eq_refl eq_refl eq_refl eq_refl eq_refl eq_refl eq_refl) as H.
  cbn zeta in H. destruct H as [H1 H2].
  eexists. eexists. split; [exact H1|]. rewrite H2. reflexivity.
Defined.

(** However far a run of the repair branch gets, its external calls are an
    initial part of the stage order. *)
Lemma repair_trace_prefix (P : Primitives) (v : list point) (f : list face)
    (size : Z) (level : float) (return_mesh new_fix : bool) :
  exists n,
    map stage_of (trace (compute v f size true level return_mesh new_fix))
    = firstn n (repair_stages new_fix).
Proof.
  unfold compute.
  destruct (core_compute v f size) as [sdf1|e];
    [rewrite bind_extern_ok | exists 1%nat; destruct new_fix; reflexivity].
  cbn [negb]. unfold repair.
  destruct (marching_cubes (np_abs sdf1) level) as [[iv ifc]|e];
    [rewrite bind_extern_ok | exists 2%nat; destruct new_fix; reflexivity].
  cbn beta iota.
  destruct (Trimesh_init iv ifc) as [m0|e];
    [rewrite bind_extern_ok | exists 3%nat; destruct new_fix; reflexivity].
  destruct (split m0) as [comps|e];
    [rewrite bind_extern_ok | exists 4%nat; destruct new_fix; reflexivity].
  pose proof (select_shell_trace new_fix comps) as Htr.
  destruct (select_shell new_fix comps) as [[m1|e] tr_sel]; cbn [trace snd] in Htr;
    subst tr_sel.
  - rewrite bind_ok.
    destruct (renormalize m1 size) as [m2|e].
    + rewrite bind_lift_ok.
      destruct (core_compute (vertices m2) (faces m2) size) as [sdf2|e];
        [rewrite bind_extern_ok | rewrite bind_extern_raise];
        exists 6%nat; destruct new_fix; reflexivity.
    + rewrite bind_lift_raise.
      destruct new_fix; [exists 5%nat | exists 4%nat]; reflexivity.
  - rewrite bind_raise.
    destruct new_fix; [exists 5%nat | exists 4%nat]; reflexivity.
Qed.



(** C6.  With [fix=False] exactly one GridField pass runs; the only other
    external call is the construction of the returned mesh when
    [return_mesh] is set.  The field handed back is the raw output of that
    pass: no absolute value, no extraction, splitting, selection or
    renormalisation, no second pass; [level] and the policy flag play no
    part. *)
Theorem no_fix_single_pass
    (P : Primitives) (v : list point) (f : list face) (size : Z)
    (level : float) (return_mesh new_fix : bool) :
  let r := compute v f size false level return_mesh new_fix in
  count_stage GridField (trace r) = 1%nat
  /\ (exists rest,
        trace r = call_core_compute v f size :: rest
        /\ forall c, In c rest -> return_mesh = true /\ c = call_Trimesh v f)
  /\ (forall out, outcome r = Ok out ->
        core_compute v f size = Ok (retval_sdf out))
  /\ (forall sdf, core_compute v f size = Ok sdf ->
        outcome r
        = if return_mesh
          then rbind (Trimesh_init v f) (fun mesh => Ok (SdfMesh sdf mesh))
          else Ok (Sdf sdf))
  /\ (forall level' new_fix',
        compute v f size false level' return_mesh new_fix' = r).
Proof.
  cbn zeta. unfold compute, count_stage.
  destruct (core_compute v f size) as [sdf|e].
  - rewrite bind_extern_ok. cbn [negb].
    destruct return_mesh.
    + destruct (Trimesh_init v f) as [mesh|e];
        [rewrite bind_extern_ok | rewrite bind_extern_raise]; cbn;
        (split; [reflexivity|]);
        (split; [eexists; split; [reflexivity|];
                 intros c [<-|[]]; auto |]);
        (split; [intros out H; inversion H; reflexivity|]);
        (split; [intros s H; inversion H; reflexivity|]);
        intros; reflexivity.
    + cbn.
      split; [reflexivity|].
      split; [exists []; split; [reflexivity|]; intros c []|].
      split; [intros out H; inversion H; reflexivity|].
      split; [intros s H; inversion H; reflexivity|].
      intros; reflexivity.
  - rewrite bind_extern_raise. cbn.
    split; [reflexivity|].
    split; [exists []; split; [reflexivity|]; intros c []|].
    split; [intros out H; inversion H|].
    split; [intros s H; inversion H|].
    intros; reflexivity.
Qed.

(** C9.  Whenever [compute] returns, the field it returns is the output of
    the last GridField pass.  With [return_mesh=True] the field comes paired
    with the mesh of that pass: for [fix=False] the mesh built from the
    input vertices and faces, for [fix=True] the repaired mesh (selected,
    merged, renormalised) whose vertices and faces the second pass was run
    on.  With [return_mesh=False] the field comes alone. *)
Theorem returned_mesh_produced_field
    (P : Primitives) (v : list point) (f : list face) (size : Z)
    (fix_ : bool) (level : float) (return_mesh new_fix : bool) (out : retval)
    (Hret : outcome (compute v f size fix_ level return_mesh new_fix) = Ok out) :
  exists tr v' f' tail,
    trace (compute v f size fix_ level return_mesh new_fix)
    = tr ++ call_core_compute v' f' size :: tail
    /\ core_compute v' f' size = Ok (retval_sdf out)
    /\ if fix_ then
         tail = []
         /\ exists components selected repaired,
              outcome (select_shell new_fix components) = Ok selected
              /\ renormalize selected size = Ok repaired
              /\ v' = vertices repaired /\ f' = faces repaired
              /\ out = if return_mesh
                       then SdfMesh (retval_sdf out) repaired
                       else Sdf (retval_sdf out)
       else
         tr = [] /\ v' = v /\ f' = f
         /\ if return_mesh then
              exists mesh,
                Trimesh_init v f = Ok mesh
                /\ tail = [call_Trimesh v f]
                /\ out = SdfMesh (retval_sdf out) mesh
            else tail = [] /\ out = Sdf (retval_sdf out).
Proof.
  unfold compute in *.
  destruct (core_compute v f size) as [sdf1|e] eqn:Hc1;
    [rewrite bind_extern_ok in * | discriminate Hret].
  destruct fix_; cbn [negb] in *.
  - (* repair branch *)
    unfold repair in *.
    destruct (marching_cubes (np_abs sdf1) level) as [[iv ifc]|e];
      [rewrite bind_extern_ok in * | discriminate Hret].
    cbn beta iota in *.
    destruct (Trimesh_init iv ifc) as [m0|e];
      [rewrite bind_extern_ok in * | discriminate Hret].
    destruct (split m0) as [comps|e];
      [rewrite bind_extern_ok in * | discriminate Hret].
    destruct (select_shell new_fix comps) as [[m1|e] tr_sel] eqn:Hsel;
      [rewrite bind_ok in * | discriminate Hret].
    destruct (renormalize m1 size) as [m2|e] eqn:Hre;
      [rewrite bind_lift_ok in * | discriminate Hret].
    destruct (core_compute (vertices m2) (faces m2) size) as [sdf2|e] eqn:Hc2;
      [rewrite bind_extern_ok in * | discriminate Hret].
    cbn in Hret. inversion Hret; subst out.
    exists ([call_core_compute v f size; call_marching_cubes (np_abs sdf1) level;
             call_Trimesh iv ifc; call_split m0] ++ tr_sel),
           (vertices m2), (faces m2), [].
    split; [cbn; reflexivity|].
    split; [destruct return_mesh; exact Hc2|].
    split; [reflexivity|].
    exists comps, m1, m2. unfold outcome. rewrite Hsel.
    destruct return_mesh; cbn; auto.
  - (* no repair *)
    destruct return_mesh.
    + destruct (Trimesh_init v f) as [mesh|e] eqn:Htm;
        [rewrite bind_extern_ok in * | discriminate Hret].
      cbn in Hret. inversion Hret; subst out.
      exists [], v, f, [call_Trimesh v f]. cbn. repeat split; eauto.
    + cbn in Hret. inversion Hret; subst out.
      exists [], v, f, []. cbn. repeat split; eauto.
Qed.

(** C9, witness: a repair run that returns the pair. *)
Lemma returned_mesh_produced_field_witness :
  let P := Demo.primitives (Demo.range_checked Demo.soup)
             [Demo.inner; Demo.rod] in
  exists out tr v' f' tail,
    outcome (compute Demo.input_vertices Demo.input_faces 128
               true 0.015 true true) = Ok out
    /\ trace (compute Demo.input_vertices Demo.input_faces 128
                true 0.015 true true)
       = tr ++ call_core_compute v' f' 128 :: tail
    /\ core_compute v' f' 128 = Ok (retval_sdf out).
Proof.
  cbn zeta. eexists.
  destruct
    (returned_mesh_produced_field
       (Demo.primitives (Demo.range_checked Demo.soup) [Demo.inner; Demo.rod])
       Demo.input_vertices Demo.input_faces 128 true 0.015 true true
       _ eq_refl) as (tr & v' & f' & tail & Htr & Hfield & _).
  exists tr, v', f', tail. split; [reflexivity|]. split; assumption.
Defined.

(** C4 (amended).  [compute] has no level check and no failure of its own
    at the extraction stage.  When the IsoExtractor primitive raises, that
    very exception leaves [compute], and ComponentSplitter is not reached;
    when it returns a soup, whatever the level and however empty the soup,
    the run goes on to build the mesh and to split it. *)
Theorem iso_failure_propagates
    (P : Primitives) (v : list point) (f : list face) (size : Z)
    (level : float) (return_mesh new_fix : bool) (sdf1 : ndarray)
    (Hfield : core_compute v f size = Ok sdf1) :
  (forall e,
     marching_cubes (np_abs sdf1) level = Raise e ->
     compute v f size true level return_mesh new_fix
     = (Raise e, [call_core_compute v f size;
                  call_marching_cubes (np_abs sdf1) level]))
  /\ (forall iso_vertices iso_faces mesh0,
        marching_cubes (np_abs sdf1) level = Ok (iso_vertices, iso_faces) ->
        Trimesh_init iso_vertices iso_faces = Ok mesh0 ->
        exists rest,
          trace (compute v f size true level return_mesh new_fix)
          = [call_core_compute v f size;
             call_marching_cubes (np_abs sdf1) level;
             call_Trimesh iso_vertices iso_faces;
             call_split mesh0] ++ rest).
Proof.
  split.
  - intros e He. unfold compute. rewrite Hfield, bind_extern_ok. cbn [negb].
    unfold repair. rewrite He, bind_extern_raise. reflexivity.
  - intros iv ifc m0 Hiso Hmesh. unfold compute.
    rewrite Hfield, bind_extern_ok. cbn [negb]. unfold repair.
    rewrite Hiso, bind_extern_ok. cbn beta iota.
    rewrite Hmesh, bind_extern_ok.
    destruct (split m0) as [comps|e];
      [rewrite bind_extern_ok | rewrite bind_extern_raise];
      eexists; cbn; reflexivity.
Qed.

(** C4, witness: the range-checking extractor refuses level 0.75 on a field
    whose absolute values reach 0.5. *)
Lemma iso_failure_propagates_witness :
  let P := Demo.primitives (Demo.range_checked Demo.soup) [Demo.inner] in
  compute Demo.input_vertices Demo.input_faces 128 true 0.75 false true
  = (Raise (Exception "ValueError"
              "Surface level must be within volume data range."),
     [call_core_compute Demo.input_vertices Demo.input_faces 128;
      call_marching_cubes
        {| shape := [128; 128; 128]%Z; data := [0.5; 0.5; 0; 0]%float |}
        0.75]).
Proof.
  cbn zeta.
  exact (proj1
    (iso_failure_propagates
       (Demo.primitives (Demo.range_checked Demo.soup) [Demo.inner])
       Demo.input_vertices Demo.input_faces 128 0.75 false true _ eq_refl)
    _ eq_refl).
Defined.

(** C4, counterexample: with the level above the largest absolute value of
    the field, the failure that leaves [compute] is the extractor's own
    [ValueError], not a [DegenerateLevelSet]; and with an extractor that
    returns an empty soup instead, the run reaches ComponentSplitter and
    returns a field. *)
Lemma no_degenerate_level_set_failure :
  (let P := Demo.primitives (Demo.range_checked Demo.soup) [Demo.inner] in
   exists e,
     outcome (compute Demo.input_vertices Demo.input_faces 128
                true 0.75 false true) = Raise e
     /\ exc_class e <> "DegenerateLevelSet"%string)
  /\ (let P := Demo.primitives (Demo.unchecked ([], [])) [] in
      In (call_split {| vertices := []; faces := [] |})
         (trace (compute Demo.input_vertices Demo.input_faces 128
                   true 0.75 false true))
      /\ exists out,
           outcome (compute Demo.input_vertices Demo.input_faces 128
                      true 0.75 false true) = Ok out).
Proof.
  cbn zeta. split.
  - eexists. split; [vm_compute; reflexivity|]. cbn. discriminate.
  - split; [vm_compute; tauto|]. eexists. vm_compute. reflexivity.
Qed.

(** C5 (amended).  The containment rule never discards every component of a
    non-empty split, so that case cannot arise.  For a split with zero
    components [compute] makes no check: under the containment policy the
    empty list goes to the merge primitive and the run continues with
    whatever mesh it returns, through to a returned field; under the
    single-pick policy the run ends in the [ValueError] of [np.argmax]. *)
Theorem no_survivor_check_absent
    (P : Primitives) (v : list point) (f : list face) (size : Z)
    (level : float) (return_mesh : bool)
    sdf1 iso_vertices iso_faces mesh0
    (Hfield : core_compute v f size = Ok sdf1)
    (Hiso : marching_cubes (np_abs sdf1) level = Ok (iso_vertices, iso_faces))
    (Hmesh : Trimesh_init iso_vertices iso_faces = Ok mesh0)
    (Hsplit : split mesh0 = Ok []) :
  (forall components,
     components <> [] -> kept components (keep_flags_of components) <> [])
  /\ (exists rest,
        trace (compute v f size true level return_mesh true)
        = [call_core_compute v f size;
           call_marching_cubes (np_abs sdf1) level;
           call_Trimesh iso_vertices iso_faces;
           call_split mesh0;
           call_concatenate []] ++ rest)
  /\ (forall merged repaired sdf2,
        concatenate [] = Ok merged ->
        renormalize merged size = Ok repaired ->
        core_compute (vertices repaired) (faces repaired) size = Ok sdf2 ->
        outcome (compute v f size true level return_mesh true)
        = Ok (if return_mesh then SdfMesh sdf2 repaired else Sdf sdf2))
  /\ (forall e,
        concatenate [] = Raise e ->
        outcome (compute v f size true level return_mesh true) = Raise e)
  /\ compute v f size true level return_mesh false
     = (Raise (Exception "ValueError"
                 "attempt to get argmax of an empty sequence"),
        [call_core_compute v f size;
         call_marching_cubes (np_abs sdf1) level;
         call_Trimesh iso_vertices iso_faces;
         call_split mesh0]).
Proof.
  split; [intros components; apply kept_nonempty|].
  assert (Hstart : forall new_fix,
            compute v f size true level return_mesh new_fix
            = let r :=
                bind (select_shell new_fix []) (fun mesh =>
                bind (lift (renormalize mesh size)) (fun mesh =>
                bind (extern (call_core_compute (vertices mesh) (faces mesh) size)
                             (core_compute (vertices mesh) (faces mesh) size))
                     (fun sdf =>
                ret (if return_mesh then SdfMesh sdf mesh else Sdf sdf)))) in
              (fst r,
               [call_core_compute v f size;
                call_marching_cubes (np_abs sdf1) level;
                call_Trimesh iso_vertices iso_faces;
                call_split mesh0] ++ snd r)).
  { intros new_fix. unfold compute. rewrite Hfield, bind_extern_ok.
    cbn [negb]. unfold repair. rewrite Hiso, bind_extern_ok. cbn beta iota.
    rewrite Hmesh, bind_extern_ok, Hsplit, bind_extern_ok. reflexivity. }
  split; [|split; [|split]].
  - rewrite Hstart. cbn zeta. rewrite select_shell_empty.
    destruct (concatenate []) as [merged|e];
      [rewrite bind_extern_ok | rewrite bind_extern_raise];
      eexists; cbn; reflexivity.
  - intros merged repaired sdf2 Hcat Hre Hc2. rewrite Hstart. cbn zeta.
    rewrite select_shell_empty.
    rewrite Hcat, bind_extern_ok, Hre, bind_lift_ok, Hc2, bind_extern_ok.
    reflexivity.
  - intros e Hcat. rewrite Hstart. cbn zeta.
    rewrite select_shell_empty.
    rewrite Hcat, bind_extern_raise. reflexivity.
  - rewrite Hstart. reflexivity.
Qed.

(** C5, witness: a split that yields no component, single-pick policy. *)
Lemma no_survivor_check_absent_witness :
  let P := Demo.primitives (Demo.range_checked Demo.soup) [] in
  exists tr,
    compute Demo.input_vertices Demo.input_faces 128 true 0.015 false false
    = (Raise (Exception "ValueError"
                "attempt to get argmax of an empty sequence"), tr).
Proof.
  cbn zeta. eexists.
  exact (proj2 (proj2 (proj2 (proj2
    (no_survivor_check_absent
       (Demo.primitives (Demo.range_checked Demo.soup) [])
       Demo.input_vertices Demo.input_faces 128 0.015 false
       _ _ _ _ eq_refl eq_refl eq_refl eq_refl))))).
Defined.

(** C5, counterexample: the split yields zero components, the containment
    policy is active, and [compute] returns a field computed from the empty
    merged mesh without any error. *)
Lemma empty_split_returns_field :
  let P := Demo.primitives (Demo.range_checked Demo.soup) [] in
  compute Demo.input_vertices Demo.input_faces 128 true 0.015 true true
  = (Ok (SdfMesh {| shape := [128; 128; 128]%Z; data := [] |}
                 {| vertices := []; faces := [] |}),
     [call_core_compute Demo.input_vertices Demo.input_faces 128;
      call_marching_cubes
        {| shape := [128; 128; 128]%Z; data := [0.5; 0.5; 0; 0]%float |}
        0.015;
      call_Trimesh (fst Demo.soup) (snd Demo.soup);
      call_split {| vertices := fst Demo.soup; faces := snd Demo.soup |};
      call_concatenate [];
      call_core_compute [] [] 128]).
Proof. vm_compute. reflexivity. Qed.

(** ** The signature of [compute] *)

Section Calls.

Context {P : Primitives}.

Import Signature.

Local Open Scope string_scope.

(** With the two required arguments given positionally, a keyword argument
    is accepted exactly when it names one of the five optional
    parameters. *)
Lemma keyword_accepted (v f : value) (name : string) (x : value) :
  (exists vs, bind_arguments compute_params [v; f] [(name, x)] = Ok vs)
  <-> In name ["size"; "fix"; "level"; "return_mesh"; "new_fix"].
Proof.
  unfold bind_arguments, compute_params.
  cbn -[String.eqb String.append In].
  repeat match goal with
  | |- context [String.eqb ?a name] =>
      destruct (String.eqb_spec a name) as [<-|?]
  end;
  cbn -[String.append];
  (split; [intros [vs H]; try discriminate H; tauto | ]).
  all: try (intros _; eexists; reflexivity).
  all: intros H; exfalso;
    repeat match goal with
    | H : _ \/ _ |- _ => destruct H as [H|H]
    end; try discriminate; try congruence; try contradiction.
Qed.

End Calls.

(** C8 (amended).  The entry point is
    [compute(vertices, faces, size=128, fix=False, level=0.015,
    return_mesh=False, new_fix=True)]: seven parameters, the first two
    required, the others with these defaults.  The shell strategy is chosen
    by the boolean [new_fix], whose default selects the containment filter;
    a keyword other than the five optional names, [shell_policy] among
    them, is refused. *)
Theorem compute_signature
    (P : Primitives) (v : list point) (f : list face) :
  let required := [Signature.VPoints v; Signature.VFaces f] in
  Signature.call_compute required []
  = Some (compute v f 128 false 0.015 false true)
  /\ (forall size fix_ level return_mesh new_fix,
        Signature.call_compute
          (required ++ [Signature.VInt size; Signature.VBool fix_;
                        Signature.VFloat level; Signature.VBool return_mesh;
                        Signature.VBool new_fix]) []
        = Some (compute v f size fix_ level return_mesh new_fix))
  /\ (forall size fix_ level return_mesh new_fix,
        Signature.call_compute required
          [("new_fix", Signature.VBool new_fix);
           ("return_mesh", Signature.VBool return_mesh);
           ("level", Signature.VFloat level);
           ("fix", Signature.VBool fix_);
           ("size", Signature.VInt size)]%string
        = Some (compute v f size fix_ level return_mesh new_fix))
  /\ (forall name x,
        (exists vs,
           Signature.bind_arguments Signature.compute_params required
             [(name, x)] = Ok vs)
        <-> In name ["size"; "fix"; "level"; "return_mesh"; "new_fix"]%string)
  /\ (forall x,
        Signature.call_compute required [("shell_policy"%string, x)]
        = Some (lift (Raise (Signature.TypeError
             "compute() got an unexpected keyword argument 'shell_policy'"))))
  /\ (forall a b c d e g h extra rest,
        exists msg,
          Signature.call_compute (a :: b :: c :: d :: e :: g :: h :: extra :: rest) []
          = Some (lift (Raise (Signature.TypeError msg))))
  /\ (forall components,
        select_shell true components
        = extern (call_concatenate (kept components (keep_flags_of components)))
                 (concatenate (kept components (keep_flags_of components)))).
Proof.
  cbn zeta. split; [reflexivity|]. split; [reflexivity|].
  split; [reflexivity|]. split; [apply keyword_accepted|].
  split; [reflexivity|]. split; [|reflexivity].
  intros. unfold Signature.call_compute, Signature.bind_arguments.
  cbn -[String.append]. destruct rest; cbn; eexists; reflexivity.
Qed.

(** C8, counterexample: a call that names [shell_policy] is a [TypeError];
    the function has no such parameter. *)
Lemma shell_policy_not_a_parameter :
  let P := Demo.primitives (Demo.range_checked Demo.soup) [Demo.inner] in
  Signature.call_compute
    [Signature.VPoints Demo.input_vertices; Signature.VFaces Demo.input_faces]
    [("shell_policy"%string, Signature.VBool true)]
  = Some (lift (Raise (Exception "TypeError"
       "compute() got an unexpected keyword argument 'shell_policy'")))
  /\ ~ In "shell_policy"%string (map fst Signature.compute_params).
Proof.
  cbn zeta. split; [vm_compute; reflexivity|].
  cbn. intros H.
  repeat match goal with
  | H : _ \/ _ |- _ => destruct H as [H|H]
  end; try discriminate; contradiction.
Qed.

(** ** The boundary of the renormalisation *)

(** [size = 1] makes the divisor zero: Python's float division raises,
    after the selection and before any second GridField pass. *)
Example size_one_division_by_zero :
  let P := Demo.primitives (Demo.range_checked Demo.soup) [Demo.inner] in
  compute Demo.input_vertices Demo.input_faces 1 true 0.015 false true
  = (Raise (Exception "ZeroDivisionError" "float division by zero"),
     [call_core_compute Demo.input_vertices Demo.input_faces 1;
      call_marching_cubes
        {| shape := [1; 1; 1]%Z; data := [0.5; 0.5; 0; 0]%float |} 0.015;
      call_Trimesh (fst Demo.soup) (snd Demo.soup);
      call_split {| vertices := fst Demo.soup; faces := snd Demo.soup |};
      call_concatenate [Demo.inner]]).
Proof. vm_compute. reflexivity. Qed.

(** At the default resolution the two ends of the index range, 0 and 127,
    go to -1 and to 1. *)
Example renorm_default_size :
  float_truediv_int 2 (128 - 1) = Ok (2 / 127)%float
  /\ renorm_coord (2 / 127) 0 = (-1)%float
  /\ renorm_coord (2 / 127) 127 = 1%float.
Proof. repeat split; vm_compute; reflexivity. Qed.

(** * Further properties of the orchestrator *)

(** ** More on the containment filter *)

Section ContainmentFilter.

Context {P : Primitives}.

Lemma forallb_false_witness {A} (f : A -> bool) (l : list A) :
  forallb f l = false -> exists x, In x l /\ f x = false.
Proof.
  induction l as [|a l IH]; cbn; [discriminate|].
  destruct (f a) eqn:Ha; cbn.
  - intros H. destruct (IH H) as (x & Hx & Hfx). eauto.
  - intros _. eauto.
Qed.

(** A component that is dropped has bounds strictly inside those of the
    component that drops it. *)
Lemma dropped_has_container (components : list Trimesh) (c : Trimesh) :
  keep_flag_of components c = false ->
  exists c', In c' components /\ mesh_ne c' c = true
             /\ box_inside (bounds c) (bounds c').
Proof.
  rewrite keep_flag_of_forallb. intros H.
  apply forallb_false_witness in H. destruct H as (x & Hx & Hd).
  apply negb_false_iff in Hd. unfold discards in Hd.
  apply andb_true_iff in Hd. destruct Hd as [Hne Hall].
  exists x. split; [assumption|]. split; [assumption|].
  now apply all_contains_spec.
Qed.

(** Above any box there is, in a finite family, an outermost one. *)
Lemma outermost_above (l : list Trimesh) (x : Trimesh) :
  exists m,
    (m = x \/ (In m l /\ box_inside (bounds x) (bounds m)))
    /\ forall c, In c l -> ~ box_inside (bounds m) (bounds c).
Proof.
  induction l as [|a l IH].
  - exists x. split; [now left|]. intros c [].
  - destruct IH as (m & Hm & Hmax).
    destruct (box_inside_dec (bounds m) (bounds a)) as [Hma|Hma].
    + exists a. split.
      * right. split; [now left|].
        destruct Hm as [->|[_ Hxm]]; [assumption|].
        eapply box_inside_trans; eauto.
      * intros c [<-|Hc]; [apply box_inside_irrefl|].
        intros Hac. apply (Hmax c Hc). eapply box_inside_trans; eauto.
    + exists m. split.
      * destruct Hm as [->|[Hin Hxm]]; [now left|].
        right. split; [now right | assumption].
      * intros c [<-|Hc]; auto.
Qed.

Lemma forallb_Permutation {A} (f : A -> bool) (l l' : list A) :
  Permutation l l' -> forallb f l = forallb f l'.
Proof.
  induction 1 as [|x l l' _ IH|x y l|l l' l'' _ IH1 _ IH2]; cbn.
  - reflexivity.
  - now rewrite IH.
  - destruct (f x), (f y); reflexivity.
  - congruence.
Qed.

Lemma filter_Permutation {A} (f : A -> bool) (l l' : list A) :
  Permutation l l' -> Permutation (filter f l) (filter f l').
Proof.
  induction 1 as [|x l l' _ IH|x y l|l l' l'' _ IH1 _ IH2]; cbn.
  - constructor.
  - destruct (f x); [now constructor | assumption].
  - destruct (f x), (f y); try reflexivity. constructor.
  - eapply perm_trans; eauto.
Qed.

End ContainmentFilter.

(** X1.  Every component the containment filter drops has its bounds
    strictly inside the bounds of a component the filter keeps. *)
Theorem dropped_inside_a_kept_component
    (P : Primitives) (components : list Trimesh) (c : Trimesh)
    (Hin : In c components)
    (Hdropped : ~ In c (kept components (keep_flags_of components))) :
  exists m,
    In m (kept components (keep_flags_of components))
    /\ box_inside (bounds c) (bounds m).
Proof.
  assert (Hflag : keep_flag_of components c = false).
  { destruct (keep_flag_of components c) eqn:E; [|reflexivity].
    exfalso. apply Hdropped, In_kept. auto. }
  destruct (dropped_has_container components c Hflag) as (c' & Hc' & _ & Hcc').
  destruct (outermost_above components c) as (m & Hm & Hmax).
  destruct Hm as [->|[Hmin Hcm]].
  - exfalso. exact (Hmax c' Hc' Hcc').
  - exists m. split; [|assumption].
    apply In_kept. split; [assumption|]. apply keep_flag_of_spec.
    intros (x & Hx & _ & Hmx). exact (Hmax x Hx Hmx).
Qed.

(** X1, witness: the inner slab is dropped and lies inside the outer one. *)
Lemma dropped_inside_a_kept_component_witness :
  let components := [Demo.inner; Demo.inner_twin; Demo.outer] in
  let P := Demo.primitives (Demo.unchecked Demo.soup) components in
  exists m,
    In m (kept components (keep_flags_of components))
    /\ box_inside (bounds Demo.inner) (bounds m).
Proof.
  cbn zeta.
  apply (dropped_inside_a_kept_component
           (Demo.primitives (Demo.unchecked Demo.soup)
              [Demo.inner; Demo.inner_twin; Demo.outer])
           [Demo.inner; Demo.inner_twin; Demo.outer] Demo.inner).
  - now left.
  - vm_compute. intros [H|[]]. discriminate H.
Defined.

(** X2.  Filtering is idempotent: applying the containment filter to the
    list it kept keeps all of it. *)
Theorem containment_filter_idempotent
    (P : Primitives) (components : list Trimesh) :
  let kept_set := kept components (keep_flags_of components) in
  kept kept_set (keep_flags_of kept_set) = kept_set.
Proof.
  cbn zeta. rewrite (kept_filter (kept components (keep_flags_of components))).
  apply forallb_filter_id. apply forallb_forall. intros c Hc.
  rewrite keep_flag_of_forallb. apply forallb_forall. intros x Hx.
  apply In_kept in Hc. destruct Hc as [_ Hc].
  apply In_kept in Hx. destruct Hx as [Hx _].
  rewrite keep_flag_of_forallb, forallb_forall in Hc. now apply Hc.
Qed.

(** X3.  Two components never discard each other: if one is dropped
    because of the other, the other is not dropped because of it. *)
Theorem discards_never_mutual
    (P : Primitives) (A B : Trimesh) (HAB : discards A B = true) :
  discards B A = false.
Proof.
  unfold discards in *. apply andb_true_iff in HAB. destruct HAB as [_ HAB].
  apply all_contains_spec in HAB.
  destruct (all (bounds_contains (bounds B) (rows (bounds A)))) eqn:E;
    [|apply andb_false_r].
  apply all_contains_spec in E. exfalso.
  exact (box_inside_irrefl _ (box_inside_trans _ _ _ E HAB)).
Qed.

(** X3, witness: the outer slab discards the inner one. *)
Lemma discards_never_mutual_witness :
  let P := Demo.primitives (Demo.unchecked Demo.soup) [] in
  discards Demo.inner Demo.outer = false.
Proof.
  cbn zeta.
  apply (discards_never_mutual
           (Demo.primitives (Demo.unchecked Demo.soup) [])
           Demo.outer Demo.inner).
  reflexivity.
Defined.

(** X4.  The kept components do not depend on the order in which the split
    lists them: a reordered split keeps the same components, reordered. *)
Theorem containment_order_independent
    (P : Primitives) (components components' : list Trimesh)
    (Hperm : Permutation components components') :
  Permutation (kept components (keep_flags_of components))
              (kept components' (keep_flags_of components')).
Proof.
  rewrite !kept_filter.
  rewrite (filter_ext (keep_flag_of components') (keep_flag_of components)).
  - now apply filter_Permutation.
  - intros c. rewrite !keep_flag_of_forallb. symmetry.
    now apply forallb_Permutation.
Qed.

(** X4, witness: three components listed in two orders. *)
Lemma containment_order_independent_witness :
  let P := Demo.primitives (Demo.unchecked Demo.soup) [] in
  Permutation
    (kept [Demo.inner; Demo.rod; Demo.outer]
          (keep_flags_of [Demo.inner; Demo.rod; Demo.outer]))
    (kept [Demo.rod; Demo.outer; Demo.inner]
          (keep_flags_of [Demo.rod; Demo.outer; Demo.inner])).
Proof.
  cbn zeta.
  apply (containment_order_independent
           (Demo.primitives (Demo.unchecked Demo.soup) [])).
  eapply perm_trans; [apply perm_swap|]. apply perm_skip, perm_swap.
Defined.

(** ** More on the single pick *)

Section SinglePickCases.

Context {P : Primitives}.

(** The loop over the components either meets one without vertices, and
    raises numpy's error for an empty reduction, or yields one extent per
    component. *)
Lemma bbox_loop_cases (components : list Trimesh) :
  forall bbox,
    match bbox_loop bbox components with
    | Ok r =>
        (exists es, r = bbox ++ es
                    /\ List.length es = List.length components)
        /\ forall c, In c components -> vertices c <> []
    | Raise e =>
        exc_class e = "ValueError"%string
        /\ exists c, In c components /\ vertices c = []
    end.
Proof.
  induction components as [|c rest IH]; intros bbox.
  - cbn. split; [|intros c []]. exists []. now rewrite app_nil_r.
  - cbn [bbox_loop]. unfold extent, min0, max0.
    destruct (vertices c) as [|p ps] eqn:Hv; cbn [rbind].
    + split; [reflexivity|]. exists c. split; [now left | assumption].
    + specialize (IH (bbox ++ [max3 (pointwise PrimFloat.sub
                                       (fold_left (pointwise np_maximum) ps p)
                                       (fold_left (pointwise np_minimum) ps p))])).
      destruct (bbox_loop _ rest) as [r|e].
      * destruct IH as [(es & -> & Hlen) Hvs]. split.
        -- eexists (_ :: es). rewrite <- app_assoc. cbn.
           split; [reflexivity | now rewrite Hlen].
        -- intros c' [<-|Hc']; [congruence | auto].
      * destruct IH as [Hcls (c' & Hc' & Hv')]. split; [assumption|].
        exists c'. split; [now right | assumption].
Qed.

(** The single pick either returns one of the components or raises a
    [ValueError]; it makes no external call. *)
Lemma select_single_cases (components : list Trimesh) :
  trace (select_shell false components) = []
  /\ match outcome (select_shell false components) with
     | Ok c =>
         In c components
         /\ forall c', In c' components -> vertices c' <> []
     | Raise e =>
         exc_class e = "ValueError"%string
         /\ (components = []
             \/ exists c', In c' components /\ vertices c' = [])
     end.
Proof.
  split; [apply select_shell_trace|].
  unfold select_shell, bbox_of.
  pose proof (bbox_loop_cases components []) as H.
  destruct (bbox_loop [] components) as [r|e].
  - destruct H as [(es & -> & Hlen) Hvs]. cbn [app]. rewrite bind_lift_ok.
    destruct es as [|e0 es'].
    + cbn. split; [reflexivity|]. left.
      destruct components; [reflexivity | discriminate].
    + destruct (np_argmax_spec (e0 :: es')) as (b & e & a & E & Harg & _);
        [discriminate|].
      rewrite Harg, bind_lift_ok.
      assert (Hlt : (List.length b < List.length components)%nat).
      { rewrite <- Hlen, E, length_app. cbn. lia. }
      unfold outcome, lift, getitem. cbn [fst].
      destruct (nth_error components (List.length b)) as [c|] eqn:Hnth.
      * split; [|assumption]. eapply nth_error_In; eauto.
      * apply nth_error_None in Hnth. lia.
  - rewrite bind_lift_raise. cbn. destruct H as [Hcls Hex]. auto.
Qed.

Lemma renormalize_size_one (mesh : Trimesh) :
  renormalize mesh 1
  = Raise (Exception "ZeroDivisionError" "float division by zero").
Proof. reflexivity. Qed.

End SinglePickCases.

(** X5.  The single pick never fails on an index: it returns one of the
    components of the split, and then the split is not empty and every
    component has a vertex; or it raises a [ValueError], and then the split
    is empty or some component has no vertex.  It calls no primitive. *)
Theorem single_pick_outcome (P : Primitives) (components : list Trimesh) :
  trace (select_shell false components) = []
  /\ match outcome (select_shell false components) with
     | Ok c =>
         In c components
         /\ forall c', In c' components -> vertices c' <> []
     | Raise e =>
         exc_class e = "ValueError"%string
         /\ (components = []
             \/ exists c', In c' components /\ vertices c' = [])
     end.
Proof. apply select_single_cases. Qed.

(** X6.  A split with a single component that has a vertex: both policies
    select it.  The containment filter keeps it whatever [!=] answers and
    hands it alone to the merge; the single pick returns it. *)
Theorem lone_component_selected
    (P : Primitives) (c : Trimesh) (Hv : vertices c <> []) :
  kept [c] (keep_flags_of [c]) = [c]
  /\ select_shell true [c] = extern (call_concatenate [c]) (concatenate [c])
  /\ select_shell false [c] = (Ok c, []).
Proof.
  assert (Hkept : kept [c] (keep_flags_of [c]) = [c]).
  { rewrite kept_filter. cbn [filter].
    rewrite keep_flag_of_forallb. cbn [forallb]. unfold discards.
    destruct (all (bounds_contains (bounds c) (rows (bounds c)))) eqn:E.
    - apply all_contains_spec in E. now apply box_inside_irrefl in E.
    - now rewrite andb_false_r. }
  split; [exact Hkept|]. split.
  - unfold select_shell. cbn zeta. now rewrite Hkept.
  - destruct (select_single_cases [c]) as [Htr Hout].
    destruct (select_shell false [c]) as [[c'|e] tr];
      cbn [trace outcome fst snd] in *; subst tr.
    + destruct Hout as [[<-|[]] _]. reflexivity.
    + destruct Hout as [_ [H|(c' & [<-|[]] & H)]]; [discriminate | contradiction].
Qed.

(** X6, witness: the inner slab alone. *)
Lemma lone_component_selected_witness :
  let P := Demo.primitives (Demo.unchecked Demo.soup) [Demo.inner] in
  select_shell false [Demo.inner] = (Ok Demo.inner, []).
Proof.
  cbn zeta.
  apply (lone_component_selected
           (Demo.primitives (Demo.unchecked Demo.soup) [Demo.inner])
           Demo.inner).
  discriminate.
Defined.

(** X7.  With [size = 1] and [fix=True] a run whose earlier stages succeed
    ends in [ZeroDivisionError] at the renormalisation: the selection has
    been made and no second GridField pass is started. *)
Theorem size_one_zero_division
    (P : Primitives) (v : list point) (f : list face)
    (level : float) (return_mesh new_fix : bool)
    sdf1 iso_vertices iso_faces mesh0 components selected tr_sel
    (Hfield : core_compute v f 1 = Ok sdf1)
    (Hiso : marching_cubes (np_abs sdf1) level = Ok (iso_vertices, iso_faces))
    (Hmesh : Trimesh_init iso_vertices iso_faces = Ok mesh0)
    (Hsplit : split mesh0 = Ok components)
    (Hselect : select_shell new_fix components = (Ok selected, tr_sel)) :
  compute v f 1 true level return_mesh new_fix
  = (Raise (Exception "ZeroDivisionError" "float division by zero"),
     [call_core_compute v f 1;
      call_marching_cubes (np_abs sdf1) level;
      call_Trimesh iso_vertices iso_faces;
      call_split mesh0] ++ tr_sel).
Proof.
  unfold compute. rewrite Hfield, bind_extern_ok. cbn [negb].
  unfold repair. rewrite Hiso, bind_extern_ok. cbn beta iota.
  rewrite Hmesh, bind_extern_ok, Hsplit, bind_extern_ok, Hselect, bind_ok.
  rewrite renormalize_size_one, bind_lift_raise. cbn.
  now rewrite app_nil_r.
Qed.

(** X7, witness: resolution 1 on the stand-in primitives. *)
Lemma size_one_zero_division_witness :
  let P := Demo.primitives (Demo.range_checked Demo.soup) [Demo.inner] in
  outcome (compute Demo.input_vertices Demo.input_faces 1 true 0.015 true false)
  = Raise (Exception "ZeroDivisionError" "float division by zero").
Proof.
  cbn zeta.
  rewrite (size_one_zero_division
             (Demo.primitives (Demo.range_checked Demo.soup) [Demo.inner])
             Demo.input_vertices Demo.input_faces 0.015 true false
             _ _ _ _ _ _ _ eq_refl eq_refl eq_refl eq_refl eq_refl).
  reflexivity.
Defined.

(** ** The sign of the first-pass field *)

Section Sign.

Local Open Scope float_scope.

Lemma Prim2SF_injective (x y : float) : Prim2SF x = Prim2SF y -> x = y.
Proof.
  intros H. rewrite <- (SF2Prim_Prim2SF x), <- (SF2Prim_Prim2SF y).
  now rewrite H.
Qed.

Lemma abs_abs (x : float) : abs (abs x) = abs x.
Proof.
  apply Prim2SF_injective. rewrite !abs_spec.
  destruct (Prim2SF x); reflexivity.
Qed.

Lemma abs_opp (x : float) : abs (- x) = abs x.
Proof.
  apply Prim2SF_injective. rewrite !abs_spec, opp_spec.
  destruct (Prim2SF x); reflexivity.
Qed.

Lemma np_abs_np_abs (a : ndarray) : np_abs (np_abs a) = np_abs a.
Proof.
  unfold np_abs. cbn. f_equal. rewrite map_map. apply map_ext, abs_abs.
Qed.

Lemma np_abs_negated (a : ndarray) :
  np_abs {| shape := shape a; data := map PrimFloat.opp (data a) |} = np_abs a.
Proof.
  unfold np_abs. cbn. f_equal. rewrite map_map. apply map_ext, abs_opp.
Qed.

End Sign.

(** X8.  The repair branch discards the sign of the first-pass field and
    uses the input mesh for nothing else: two inputs whose first-pass
    fields have the same shape and the same absolute values give the same
    outcome and, after the first GridField call, the same calls.  A field
    and its negation are such a pair. *)
Theorem repair_ignores_sign
    (P : Primitives) (v v' : list point) (f f' : list face) (size : Z)
    (level : float) (return_mesh new_fix : bool) (sdf sdf' : ndarray)
    (Hfield : core_compute v f size = Ok sdf)
    (Hfield' : core_compute v' f' size = Ok sdf')
    (Hshape : shape sdf = shape sdf')
    (Hmagnitude : map abs (data sdf) = map abs (data sdf')) :
  outcome (compute v f size true level return_mesh new_fix)
  = outcome (compute v' f' size true level return_mesh new_fix)
  /\ tl (trace (compute v f size true level return_mesh new_fix))
     = tl (trace (compute v' f' size true level return_mesh new_fix))
  /\ (forall a,
        np_abs {| shape := shape a; data := map PrimFloat.opp (data a) |}
        = np_abs a)
  /\ (forall a, np_abs (np_abs a) = np_abs a).
Proof.
  assert (Habs : np_abs sdf = np_abs sdf').
  { unfold np_abs. now rewrite Hshape, Hmagnitude. }
  unfold compute. rewrite Hfield, Hfield', !bind_extern_ok. cbn [negb].
  unfold repair. rewrite Habs. cbn [outcome trace fst snd tl].
  repeat split; [apply np_abs_negated | apply np_abs_np_abs].
Qed.

(** X8, witness: an input and its mirror image in x; the stand-in field
    lists the x coordinates, so the two fields are opposite. *)
Lemma repair_ignores_sign_witness :
  let P := Demo.primitives (Demo.range_checked Demo.soup)
             [Demo.inner; Demo.rod] in
  outcome (compute Demo.input_vertices Demo.input_faces 128
             true 0.015 true true)
  = outcome (compute [(0.5, -0.5, -0.5); (-0.5, -0.5, -0.5);
                      (-0, 0.5, 0); (-0, 0, 0.5)]%float
                     Demo.input_faces 128 true 0.015 true true).
Proof.
  cbn zeta.
  apply (repair_ignores_sign
           (Demo.primitives (Demo.range_checked Demo.soup)
              [Demo.inner; Demo.rod])
           Demo.input_vertices _ Demo.input_faces Demo.input_faces 128
           0.015 true true _ _ eq_refl eq_refl eq_refl eq_refl).
Defined.

(** ** How many calls a run makes, and when it returns *)

Section Budget.

Context {P : Primitives}.

Lemma count_stage_map (s : stage) (tr : list Call) :
  count_stage s tr
  = List.length (filter (fun st => stage_eqb st s) (map stage_of tr)).
Proof.
  unfold count_stage. induction tr as [|c tr IH]; cbn; [reflexivity|].
  destruct (stage_eqb (stage_of c) s); cbn; now rewrite IH.
Qed.

Lemma trace_starts_with_first_pass (v : list point) (f : list face)
    (size : Z) (fix_ : bool) (level : float) (return_mesh new_fix : bool) :
  exists rest,
    trace (compute v f size fix_ level return_mesh new_fix)
    = call_core_compute v f size :: rest.
Proof.
  unfold compute. destruct (core_compute v f size) as [sdf|e].
  - rewrite bind_extern_ok. eexists. reflexivity.
  - rewrite bind_extern_raise. eexists. reflexivity.
Qed.

End Budget.

(** X9.  Whatever the input and whatever the primitives do, a run starts
    with the GridField call on the input and calls GridField at most twice
    (once without repair), the extractor, the mesh constructor and the
    splitter at most once each, and the merge at most once, and only under
    the containment policy of the repair branch. *)
Theorem call_budget
    (P : Primitives) (v : list point) (f : list face) (size : Z)
    (fix_ : bool) (level : float) (return_mesh new_fix : bool) :
  let tr := trace (compute v f size fix_ level return_mesh new_fix) in
  (exists rest, tr = call_core_compute v f size :: rest)
  /\ (count_stage GridField tr <= if fix_ then 2 else 1)%nat
  /\ (count_stage IsoExtractor tr <= if fix_ then 1 else 0)%nat
  /\ (count_stage MeshBuild tr <= 1)%nat
  /\ (count_stage ComponentSplitter tr <= if fix_ then 1 else 0)%nat
  /\ (count_stage Merge tr <= if fix_ && new_fix then 1 else 0)%nat.
Proof.
  cbn zeta. split; [apply trace_starts_with_first_pass|].
  destruct fix_.
  - destruct (repair_trace_prefix P v f size level return_mesh new_fix)
      as [n Hn].
    rewrite !count_stage_map, Hn. clear Hn.
    destruct new_fix;
      do 6 (destruct n as [|n]; [cbn; repeat split; lia|]);
      cbn; rewrite ?firstn_nil; cbn; repeat split; lia.
  - unfold compute, count_stage.
    destruct (core_compute v f size) as [sdf|e];
      [rewrite bind_extern_ok | rewrite bind_extern_raise; cbn; lia].
    cbn [negb]. destruct return_mesh; [|cbn; lia].
    destruct (Trimesh_init v f) as [mesh|e];
      [rewrite bind_extern_ok | rewrite bind_extern_raise]; cbn; lia.
Qed.

(** X10.  When the primitives answer every call, the split is never empty,
    every component has a vertex, and the merge accepts non-empty lists,
    [compute] returns (it raises nothing) for every resolution from 2 to
    4096, with or without repair and under either policy.  The merge is
    never asked to accept an empty list. *)
Theorem compute_returns_under_contract
    (P : Primitives)
    (Hcore : forall v f size, exists sdf, core_compute v f size = Ok sdf)
    (Hiso : forall sdf level, exists soup, marching_cubes sdf level = Ok soup)
    (Hmesh : forall v f, exists mesh, Trimesh_init v f = Ok mesh)
    (Hsplit : forall mesh,
        exists components,
          split mesh = Ok components /\ components <> []
          /\ forall c, In c components -> vertices c <> [])
    (Hmerge : forall components,
        components <> [] -> exists mesh, concatenate components = Ok mesh)
    (v : list point) (f : list face) (size : Z) (fix_ : bool)
    (level : float) (return_mesh new_fix : bool)
    (Hsize : (2 <= size <= 4096)%Z) :
  exists out,
    outcome (compute v f size fix_ level return_mesh new_fix) = Ok out.
Proof.
  destruct (Hcore v f size) as [sdf1 Hc1]. destruct fix_.
  - destruct (Hiso (np_abs sdf1) level) as [[iv ifc] Hmc].
    destruct (Hmesh iv ifc) as [m0 Hm0].
    destruct (Hsplit m0) as (comps & Hsp & Hne & Hvs).
    assert (Hsel : exists m1 tr_sel,
               select_shell new_fix comps = (Ok m1, tr_sel)).
    { destruct new_fix.
      - destruct (Hmerge _ (kept_nonempty comps Hne)) as [m1 Hm1].
        exists m1. eexists. unfold select_shell. cbn zeta.
        rewrite Hm1. reflexivity.
      - destruct (select_single_cases comps) as [_ Hout].
        destruct (select_shell false comps) as [[c|e] tr]; cbn in Hout.
        + eauto.
        + exfalso. destruct Hout as [_ [->|(c' & Hc' & Hv')]];
            [congruence | exact (Hvs c' Hc' Hv')]. }
    destruct Hsel as (m1 & tr_sel & Hsel).
    destruct (renormalize_defined_for_sizes m1 size Hsize) as (d & _ & Hre).
    destruct (Hcore (vertices (set_vertices m1
                       (map (renorm_point (2 / d)) (vertices m1))))
                    (faces (set_vertices m1
                       (map (renorm_point (2 / d)) (vertices m1)))) size)
      as [sdf2 Hc2].
    erewrite compute_fix_run by eassumption.
    eexists. reflexivity.
  - unfold compute. rewrite Hc1, bind_extern_ok. cbn [negb].
    destruct return_mesh.
    + destruct (Hmesh v f) as [mesh Hm]. rewrite Hm, bind_extern_ok.
      eexists. reflexivity.
    + eexists. reflexivity.
Qed.

(** X10, witness: stand-in primitives that answer every call. *)
Lemma compute_returns_under_contract_witness :
  let P := Demo.primitives (Demo.unchecked Demo.soup)
             [Demo.inner; Demo.rod] in
  exists out,
    outcome (compute Demo.input_vertices Demo.input_faces 128
               true 0.015 true false) = Ok out.
Proof.
  cbn zeta.
  apply (compute_returns_under_contract
           (Demo.primitives (Demo.unchecked Demo.soup)
              [Demo.inner; Demo.rod])).
  - intros. eexists. reflexivity.
  - intros. eexists. reflexivity.
  - intros. eexists. reflexivity.
  - intros. eexists. split; [reflexivity|]. split; [discriminate|].
    intros c [<-|[<-|[]]]; discriminate.
  - intros. eexists. reflexivity.
  - lia.
Defined.

(** X11.  For every resolution from 2 to 4096 the renormalisation sends
    the lowest grid index, 0, exactly to -1, and the highest, [size - 1],
    to a value that never exceeds 1 and falls short of it by at most
    2^-52: the two ends of the grid stay inside [[-1, 1]]. *)
Theorem grid_ends_stay_in_range (size : Z) (Hsize : (2 <= size <= 4096)%Z) :
  exists d,
    float_of_int (size - 1) = Ok d
    /\ float_truediv_int 2 (size - 1) = Ok (2 / d)%float
    /\ renorm_coord (2 / d) 0 = (-1)%float
    /\ (renorm_coord (2 / d) d <=? 1)%float = true
    /\ (0x1.ffffffffffffep-1 <=? renorm_coord (2 / d) d)%float = true.
Proof.
  assert (Hall : forallb
            (fun k =>
               match float_of_int (Z.of_nat k) with
               | Ok d =>
                   negb (d =? 0)%float
                   && Leibniz.eqb (renorm_coord (2 / d) 0) (-1)%float
                   && (renorm_coord (2 / d) d <=? 1)%float
                   && (0x1.ffffffffffffep-1 <=? renorm_coord (2 / d) d)%float
               | Raise _ => false
               end) (seq 1 4095) = true)
    by (vm_compute; reflexivity).
  rewrite forallb_forall in Hall.
  specialize (Hall (Z.to_nat (size - 1))).
  rewrite Z2Nat.id in Hall by lia.
  assert (Hin : In (Z.to_nat (size - 1)) (seq 1 4095)) by (apply in_seq; lia).
  specialize (Hall Hin). unfold float_truediv_int.
  destruct (float_of_int (size - 1)) as [d|e]; [|discriminate].
  apply andb_true_iff in Hall. destruct Hall as [Hall Hlow].
  apply andb_true_iff in Hall. destruct Hall as [Hall Hhigh].
  apply andb_true_iff in Hall. destruct Hall as [Hnz Hzero].
  apply negb_true_iff in Hnz. apply FloatAxioms.Leibniz.eqb_spec in Hzero.
  exists d. cbn [rbind]. rewrite Hnz. auto.
Qed.

(** X11, witness: the default resolution. *)
Lemma grid_ends_stay_in_range_witness :
  exists d,
    float_of_int (128 - 1) = Ok d
    /\ float_truediv_int 2 (128 - 1) = Ok (2 / d)%float
    /\ renorm_coord (2 / d) 0 = (-1)%float
    /\ (renorm_coord (2 / d) d <=? 1)%float = true
    /\ (0x1.ffffffffffffep-1 <=? renorm_coord (2 / d) d)%float = true.
Proof. apply (grid_ends_stay_in_range 128). lia. Defined.

(** X12.  When no component of the split has bounds strictly inside those
    of another, the containment filter keeps every component, in split
    order. *)
Theorem unnested_components_all_kept
    (P : Primitives) (components : list Trimesh)
    (Hflat : forall c c', In c components -> In c' components ->
                          ~ box_inside (bounds c) (bounds c')) :
  kept components (keep_flags_of components) = components.
Proof.
  rewrite kept_filter. apply forallb_filter_id, forallb_forall.
  intros c Hc. apply keep_flag_of_spec.
  intros (c' & Hc' & _ & Hbox). exact (Hflat c c' Hc Hc' Hbox).
Qed.

(** X12, witness: a cube and a rod placed apart. *)
Lemma unnested_components_all_kept_witness :
  let P := Demo.primitives (Demo.unchecked Demo.soup) [] in
  kept [Demo.inner; Demo.rod] (keep_flags_of [Demo.inner; Demo.rod])
  = [Demo.inner; Demo.rod].
Proof.
  cbn zeta.
  apply (unnested_components_all_kept
           (Demo.primitives (Demo.unchecked Demo.soup) [])).
  intros c c' Hc Hc' Hbox. apply all_contains_spec in Hbox.
  destruct Hc as [<-|[<-|[]]]; destruct Hc' as [<-|[<-|[]]];
    vm_compute in Hbox; discriminate Hbox.
Defined.

(** X13.  In the repair branch [return_mesh] changes only the form of the
    returned value: with it set or not, the same calls are made, the same
    exception is raised if any, and the same field is returned. *)
Theorem return_mesh_only_shapes_result
    (P : Primitives) (v : list point) (f : list face) (size : Z)
    (level : float) (new_fix : bool) :
  trace (compute v f size true level true new_fix)
  = trace (compute v f size true level false new_fix)
  /\ match outcome (compute v f size true level true new_fix),
           outcome (compute v f size true level false new_fix) with
     | Ok (SdfMesh sdf _), Ok (Sdf sdf') => sdf = sdf'
     | Raise e, Raise e' => e = e'
     | _, _ => False
     end.
Proof.
  unfold compute.
  destruct (core_compute v f size) as [sdf1|e];
    [rewrite !bind_extern_ok | cbn; auto].
  cbn [negb]. unfold repair.
  destruct (marching_cubes (np_abs sdf1) level) as [[iv ifc]|e];
    [rewrite !bind_extern_ok | cbn; auto].
  cbn beta iota.
  destruct (Trimesh_init iv ifc) as [m0|e];
    [rewrite !bind_extern_ok | cbn; auto].
  destruct (split m0) as [comps|e];
    [rewrite !bind_extern_ok | cbn; auto].
  destruct (select_shell new_fix comps) as [[m1|e] tr_sel];
    [rewrite !bind_ok | cbn; auto].
  destruct (renormalize m1 size) as [m2|e];
    [rewrite !bind_lift_ok | cbn; auto].
  destruct (core_compute (vertices m2) (faces m2) size) as [sdf2|e];
    [rewrite !bind_extern_ok | cbn; auto].
  cbn. auto.
Qed.
